(** * Kdl-backend: the user service over its repository

    A shallow embedding of [UserService] (user.service.ts), of the
    [PaginationDto] it receives and of the persistence and hashing
    collaborators it calls, followed by the properties of the service. *)

From stdpp Require Import gmap strings list fin_maps sorting pretty.

Local Open Scope Z_scope.

(** ** Exceptions and the service monad *)

(** The exception classes of @nestjs/common thrown by the service, and
    [Error] for whatever a lower layer throws. *)
Inductive Exception :=
| BadRequestException (message : string)
| NotFoundException (message : string)
| UnauthorizedException (message : string)
| Error (message : string).

Definition message (e : Exception) : string :=
  match e with
  | BadRequestException m | NotFoundException m
  | UnauthorizedException m | Error m => m
  end.

Inductive Completion (A : Type) :=
| Return (a : A)
| Throw (e : Exception).
Arguments Return {A} a.
Arguments Throw {A} e.

(** ** Persistence: the user table *)

(** A stored row; the primary key is the key of the table. *)
Record UserRow := mkRow {
  row_userName : string;
  row_email : string;
  row_password : string;
  row_refreshToken : option string;   (* None is SQL NULL *)
  row_createdAt : Z
}.

(** A [UserEntity] object as the service handles it: a property can be
    absent ([delete user.password], [new UserEntity()]). For
    [refreshToken], [Some None] is the value null. *)
Module UserEntity.
Record t := mk {
  id : option Z;
  userName : option string;
  email : option string;
  password : option string;
  refreshToken : option (option string);
  createdAt : option Z
}.
(** [new UserEntity()] *)
Definition new : t := mk None None None None None None.
(** [user.userName = v], [user.email = v], [user.password = v] *)
Definition set_userName (v : string) (u : t) : t :=
  mk (id u) (Some v) (email u) (password u) (refreshToken u) (createdAt u).
Definition set_email (v : string) (u : t) : t :=
  mk (id u) (userName u) (Some v) (password u) (refreshToken u) (createdAt u).
Definition set_password (v : string) (u : t) : t :=
  mk (id u) (userName u) (email u) (Some v) (refreshToken u) (createdAt u).
End UserEntity.

(** The world the service runs in: the table, the auto-increment sequence
    of its primary key, the clock that stamps [createdAt], and the number
    of salts drawn so far from the entropy source of bcrypt. *)
Record World := mkWorld {
  table : gmap Z UserRow;
  sequence : Z;
  clock : Z;
  entropy : nat
}.

Definition with_table (t : gmap Z UserRow) (w : World) : World :=
  mkWorld t (sequence w) (clock w) (entropy w).

Definition M (A : Type) : Type := World → Completion A * World.

Definition ret {A} (a : A) : M A := λ w, (Return a, w).
Definition throw {A} (e : Exception) : M A := λ w, (Throw e, w).
Definition bind {A B} (m : M A) (k : A → M B) : M B := λ w,
  match m w with
  | (Return a, w') => k a w'
  | (Throw e, w') => (Throw e, w')
  end.
(** [try { body } catch (error) { handler }] *)
Definition try_catch {A} (body : M A) (handler : Exception → M A) : M A := λ w,
  match body w with
  | (Return a, w') => (Return a, w')
  | (Throw e, w') => handler e w'
  end.

Notation "'let*' x ':=' m 'in' k" := (bind m (λ x, k))
  (at level 10, x name, m at level 100, k at level 200).
Notation "'let*' ' p ':=' m 'in' k" := (bind m (λ x, match x with p => k end))
  (at level 10, p pattern, m at level 100, k at level 200).

(** *** The repository (typeorm's Repository<UserEntity>) *)

(** The entity loaded from a row: every column is a property. *)
Definition hydrate (i : Z) (r : UserRow) : UserEntity.t :=
  UserEntity.mk (Some i) (Some (row_userName r)) (Some (row_email r))
    (Some (row_password r)) (Some (row_refreshToken r)) (Some (row_createdAt r)).

(** [findOneBy({ id })] *)
Definition findOneBy_id (i : Z) : M (option UserEntity.t) := λ w,
  (Return (hydrate i <$> table w !! i), w).

Definition first_by_email (e : string) (t : gmap Z UserRow) : option (Z * UserRow) :=
  snd <$> list_find (λ kr, row_email kr.2 = e) (map_to_list t).

(** [findOneBy({ email })] *)
Definition findOneBy_email (e : string) : M (option UserEntity.t) := λ w,
  (Return (uncurry hydrate <$> first_by_email e (table w)), w).

(** Rows by [createdAt], newest first. *)
Definition newer (a b : Z * UserRow) : Prop := row_createdAt b.2 ≤ row_createdAt a.2.
#[local] Instance newer_dec a b : Decision (newer a b).
Proof. unfold newer. apply _. Defined.

Definition by_createdAt_desc (t : gmap Z UserRow) : list (Z * UserRow) :=
  merge_sort newer (map_to_list t).

(** [findAndCount({ skip, take, order: { createdAt: 'DESC' } })]: the page
    and the number of rows of the whole table. A negative OFFSET is
    refused by the database. The offset is an exact integer here: what
    the database does with one beyond its own range, which no table
    reaches, is not modelled. *)
Definition findAndCount (skip take : Z) : M (list UserEntity.t * Z) := λ w,
  if bool_decide (skip < 0) then (Throw (Error "OFFSET must not be negative"), w)
  else
    let page := firstn (Z.to_nat take) (skipn (Z.to_nat skip) (by_createdAt_desc (table w))) in
    (Return (uncurry hydrate <$> page, Z.of_nat (size (table w))), w).

(** The columns an update writes: the defined properties of the object;
    [createdAt] is set once, at creation. *)
Definition merge_row (e : UserEntity.t) (r : UserRow) : UserRow :=
  mkRow (default (row_userName r) (UserEntity.userName e))
        (default (row_email r) (UserEntity.email e))
        (default (row_password r) (UserEntity.password e))
        (default (row_refreshToken r) (UserEntity.refreshToken e))
        (row_createdAt r).

(** The row an insert writes; the three required columns are NOT NULL,
    and an undefined nullable column is written as NULL. *)
Definition new_row (e : UserEntity.t) (now : Z) : option UserRow :=
  match UserEntity.userName e, UserEntity.email e, UserEntity.password e with
  | Some n, Some m, Some p =>
      Some (mkRow n m p (default None (UserEntity.refreshToken e)) now)
  | _, _, _ => None
  end.

(** The object an insert returns carries the generated id and creation
    time, and the null it wrote for an undefined [refreshToken]. *)
Definition insert_row (i : Z) (next : Z) (e : UserEntity.t) : M UserEntity.t := λ w,
  match new_row e (clock w) with
  | Some r =>
      (Return (UserEntity.mk (Some i) (UserEntity.userName e) (UserEntity.email e)
                 (UserEntity.password e) (Some (row_refreshToken r)) (Some (clock w))),
       mkWorld (<[i := r]> (table w)) next (clock w + 1) (entropy w))
  | None => (Throw (Error "null value violates not-null constraint"), w)
  end.

(** [save(entity)]: an object whose id names a stored row updates that
    row, any other object is inserted; an object without id takes the
    next value of the sequence. The object itself is returned. *)
Definition save (e : UserEntity.t) : M UserEntity.t := λ w,
  match UserEntity.id e with
  | Some i =>
      match table w !! i with
      | Some r => (Return e, with_table (<[i := merge_row e r]> (table w)) w)
      | None => insert_row i (sequence w) e w
      end
  | None => insert_row (sequence w) (sequence w + 1) e w
  end.

Record UpdateResult := { upd_affected : Z }.
Record DeleteResult := { affected : Z }.

(** [update({ id }, { refreshToken })] *)
Definition update_refreshToken (i : Z) (v : option string) : M UpdateResult := λ w,
  match table w !! i with
  | Some r =>
      (Return {| upd_affected := 1 |},
       with_table (<[i := mkRow (row_userName r) (row_email r) (row_password r) v
                             (row_createdAt r)]> (table w)) w)
  | None => (Return {| upd_affected := 0 |}, w)
  end.

(** [delete(id)] *)
Definition delete_id (i : Z) : M DeleteResult := λ w,
  match table w !! i with
  | Some _ => (Return {| affected := 1 |}, with_table (delete i (table w)) w)
  | None => (Return {| affected := 0 |}, w)
  end.

(** ** bcrypt *)

(** The hashing library: [bcrypt_salt rounds n] is the salt [genSalt]
    returns for the work factor [rounds] at the [n]-th draw from the
    entropy source, [bcrypt_hash data salt] the hash string and
    [bcrypt_compare data encrypted] the verification. *)
Class Bcrypt := {
  bcrypt_salt : Z → nat → string;
  bcrypt_hash : string → string → string;
  bcrypt_compare : string → string → bool
}.

(** What the service relies on: the data a hash was made from verifies
    against it, and a hash is not its input. Nothing is assumed about
    other data: bcrypt hashes the first 72 bytes only, so data that
    agree on them verify against each other's hashes. *)
Class BcryptLaws (B : Bcrypt) : Prop := {
  compare_hash : ∀ data salt, bcrypt_compare data (bcrypt_hash data salt) = true;
  hash_not_raw : ∀ data salt, bcrypt_hash data salt ≠ data
}.

(** ** DTOs *)

(** [PaginationDto]: two optional properties, [page] and [limit]. *)
Record PaginationDto := {
  page : option Z;
  limit : option Z
}.

(** Reading a property of a [PaginationDto] by name; a name the class
    does not declare reads as undefined. *)
Definition PaginationDto_get (d : PaginationDto) (name : string) : option Z :=
  if String.eqb name "page" then page d
  else if String.eqb name "limit" then limit d
  else None.

Record CreateUserDto := {
  create_userName : string;
  create_email : string;
  create_password : string
}.

Record UpdateUserDto := {
  update_userName : option string;
  update_email : option string;
  update_password : option string
}.

(** The result of [findAll]; [page_number] is its [page] property. *)
Record Page := {
  items : list UserEntity.t;
  total : Z;
  page_number : Z;
  pageSize : Z;
  totalPages : Z
}.

(** ** JavaScript helpers *)

(** Truthiness of a possibly undefined string: defined and not empty. *)
Definition truthy (s : option string) : bool :=
  match s with
  | Some s => negb (String.eqb s "")
  | None => false
  end.

(** [delete user.password] *)
Definition delete_password (u : UserEntity.t) : UserEntity.t :=
  UserEntity.mk (UserEntity.id u) (UserEntity.userName u) (UserEntity.email u)
    None (UserEntity.refreshToken u) (UserEntity.createdAt u).

(** [{ ...user, ...updateUserDto }] *)
Definition spread (user : UserEntity.t) (dto : UpdateUserDto) : UserEntity.t :=
  UserEntity.mk (UserEntity.id user)
    (from_option Some (UserEntity.userName user) (update_userName dto))
    (from_option Some (UserEntity.email user) (update_email dto))
    (from_option Some (UserEntity.password user) (update_password dto))
    (UserEntity.refreshToken user) (UserEntity.createdAt user).

(** [Number.MAX_SAFE_INTEGER]: up to it the integers are numbers, and
    the arithmetic on them is exact. *)
Definition MAX_SAFE_INTEGER : Z := 2 ^ 53 - 1.

(** [Math.ceil(a / b)] on integers. *)
Definition Math_ceil_div (a b : Z) : Z := - ((- a) / b).

(** ** The user service *)

Section UserService.
Context {B : Bcrypt}.
(** [this.databaseEnabled], read from the configuration by the constructor. *)
Variable databaseEnabled : bool.

(** [bcrypt.genSalt(rounds)]; [bcrypt.genSalt()] is [genSalt 10]. *)
Definition genSalt (rounds : Z) : M string := λ w,
  (Return (bcrypt_salt rounds (entropy w)),
   mkWorld (table w) (sequence w) (clock w) (S (entropy w))).

(** [bcrypt.hash(data, salt)] with a salt string. *)
Definition hash (data salt : string) : M string := ret (bcrypt_hash data salt).

(** [bcrypt.hash(data, rounds)] with a number: the salt is generated
    with that work factor. *)
Definition hash_rounds (data : string) (rounds : Z) : M string :=
  let* salt := genSalt rounds in hash data salt.

Definition create (userDto : CreateUserDto) : M UserEntity.t :=
  if negb databaseEnabled
  then throw (BadRequestException "Database functionality is disabled")
  else
    try_catch
      (let* existingUser := findOneBy_email (create_email userDto) in
       if existingUser is Some _
       then throw (BadRequestException "User with this email already exists")
       else
         let user := UserEntity.new in
         let user := UserEntity.set_userName (create_userName userDto) user in
         let user := UserEntity.set_email (create_email userDto) user in
         let* salt := genSalt 10 in
         let* hashed := hash (create_password userDto) salt in
         let user := UserEntity.set_password hashed user in
         let* savedUser := save user in
         ret (delete_password savedUser))
      (λ error,
         match error with
         | BadRequestException _ => throw error
         | _ => throw (BadRequestException ("Failed to create user: " +:+ message error))
         end).

Definition findAll (paginationDto : PaginationDto) : M Page :=
  try_catch
    (let page := default 1 (PaginationDto_get paginationDto "page") in
     let pageSize := default 10 (PaginationDto_get paginationDto "pageSize") in
     let skip := (page - 1) * pageSize in
     let* '(users, total) := findAndCount skip pageSize in
     let items := delete_password <$> users in
     ret {| items := items; total := total; page_number := page;
            pageSize := pageSize; totalPages := Math_ceil_div total pageSize |})
    (λ error, throw (BadRequestException ("Failed to fetch users: " +:+ message error))).

Definition findById (id : Z) : M UserEntity.t :=
  try_catch
    (let* user := findOneBy_id id in
     match user with
     | None => throw (NotFoundException ("User with ID " +:+ pretty id +:+ " not found"))
     | Some user => ret (delete_password user)
     end)
    (λ error,
       match error with
       | NotFoundException _ => throw error
       | _ => throw (BadRequestException
                       ("Failed to find user with ID " +:+ pretty id +:+ ": " +:+ message error))
       end).

(** The assignment [updateUserDto.password = hash] rebinds the patch for
    the rest of the body. *)
Definition update (id : Z) (updateUserDto : UpdateUserDto) : M UserEntity.t :=
  try_catch
    (let* user := findById id in
     let* _ :=
       match update_email updateUserDto with
       | Some email =>
           if truthy (Some email) && bool_decide (Some email ≠ UserEntity.email user)
           then
             let* existingUser := findOneBy_email email in
             if existingUser is Some _
             then throw (BadRequestException "Email is already in use")
             else ret ()
           else ret ()
       | None => ret ()
       end in
     let* updateUserDto :=
       match update_password updateUserDto with
       | Some password =>
           if truthy (Some password)
           then
             let* salt := genSalt 10 in
             let* hashed := hash password salt in
             ret {| update_userName := update_userName updateUserDto;
                    update_email := update_email updateUserDto;
                    update_password := Some hashed |}
           else ret updateUserDto
       | None => ret updateUserDto
       end in
     let* updatedUser := save (spread user updateUserDto) in
     ret (delete_password updatedUser))
    (λ error,
       match error with
       | NotFoundException _ | BadRequestException _ => throw error
       | _ => throw (BadRequestException
                       ("Failed to update user with ID " +:+ pretty id +:+ ": " +:+ message error))
       end).

Definition remove (id : Z) : M () :=
  try_catch
    (let* result := delete_id id in
     if bool_decide (affected result = 0)
     then throw (NotFoundException ("User with ID " +:+ pretty id +:+ " not found"))
     else ret ())
    (λ error,
       match error with
       | NotFoundException _ => throw error
       | _ => throw (BadRequestException
                       ("Failed to delete user with ID " +:+ pretty id +:+ ": " +:+ message error))
       end).

Definition updateRefreshToken (userId : Z) (refreshToken : string) : M () :=
  try_catch
    (let* hashedRefreshToken := hash_rounds refreshToken 10 in
     let* _ := update_refreshToken userId (Some hashedRefreshToken) in
     ret ())
    (λ error, throw (BadRequestException ("Failed to update refresh token: " +:+ message error))).

Definition removeRefreshToken (userId : Z) : M () :=
  try_catch
    (let* _ := update_refreshToken userId None in
     ret ())
    (λ error, throw (BadRequestException ("Failed to remove refresh token: " +:+ message error))).

End UserService.

(** *** The lookup by email of the authentication path *)

Section FindOne.
(** What the repository answers to [findOneBy({ email: undefined })],
    a criterion without condition, is left open. *)
Variable findOneBy_unconstrained : gmap Z UserRow → option (Z * UserRow).

(** [findOneBy({ email: data.email })] with a possibly undefined email. *)
Definition findOneBy_where_email (e : option string) : M (option UserEntity.t) :=
  match e with
  | Some e => findOneBy_email e
  | None => λ w, (Return (uncurry hydrate <$> findOneBy_unconstrained (table w)), w)
  end.

Definition findOne (data : UserEntity.t) : M UserEntity.t :=
  try_catch
    (let* user := findOneBy_where_email (UserEntity.email data) in
     match user with
     | None => throw (UnauthorizedException "User not found with the provided email")
     | Some user => ret user
     end)
    (λ error,
       match error with
       | UnauthorizedException _ => throw error
       | _ => throw (BadRequestException ("Failed to find user: " +:+ message error))
       end).

End FindOne.

(** *** Validation of [PaginationDto] *)

(** [@Min(n)] on a number, and [@IsOptional()] before it: an undefined
    property passes, a defined one is checked. [@IsInt()] holds of every
    [Z]. *)
Definition Min (n v : Z) : bool := bool_decide (n ≤ v).

Definition IsOptional (check : Z → bool) (v : option Z) : bool :=
  match v with
  | Some v => check v
  | None => true
  end.

Definition PaginationDto_validate (d : PaginationDto) : bool :=
  IsOptional (Min 1) (page d) && IsOptional (Min 1) (limit d).

(** [new PaginationDto()]: the initialisers of the two properties. *)
Definition PaginationDto_new : PaginationDto := {| page := Some 1; limit := Some 10 |}.

(** ** Notions used by the properties *)

(** Emails are pairwise distinct: two rows with one email are one row. *)
Definition unique_emails (t : gmap Z UserRow) : Prop :=
  ∀ i j r s, t !! i = Some r → t !! j = Some s → row_email r = row_email s → i = j.

#[local] Instance unique_emails_dec t : Decision (unique_emails t).
Proof.
  refine (cast_if (decide (map_Forall (λ i r,
            map_Forall (λ j s, row_email r = row_email s → i = j) t) t)));
    unfold unique_emails, map_Forall in *; naive_solver.
Defined.

(** Modelled from the spec: the class [UpdateUserDto] and its validators
    are not among the sources. The update input accepts an email that is
    syntactically valid, and malformed fields are rejected before they
    reach the service; of that only this is used: an email that is
    present is not the empty string. *)
Definition UpdateUserDto_email_validated (dto : UpdateUserDto) : Prop :=
  update_email dto ≠ Some "".

(** No stored row has the email [e]. *)
Definition email_unused (e : string) (t : gmap Z UserRow) : Prop :=
  ∀ i r, t !! i = Some r → row_email r ≠ e.

Section Outcomes.
Context {B : Bcrypt}.

(** The row a successful [create] writes, the object it returns and the
    world it leaves. *)
Definition created_row (dto : CreateUserDto) (w : World) : UserRow :=
  mkRow (create_userName dto) (create_email dto)
    (bcrypt_hash (create_password dto) (bcrypt_salt 10 (entropy w))) None (clock w).

Definition created_user (dto : CreateUserDto) (w : World) : UserEntity.t :=
  UserEntity.mk (Some (sequence w)) (Some (create_userName dto))
    (Some (create_email dto)) None (Some None) (Some (clock w)).

Definition created_world (dto : CreateUserDto) (w : World) : World :=
  mkWorld (<[sequence w := created_row dto w]> (table w))
    (sequence w + 1) (clock w + 1) (S (entropy w)).

(** The patch [update] saves: a truthy password is replaced by its hash
    under the [n]-th salt. *)
Definition hashed_patch (dto : UpdateUserDto) (n : nat) : UpdateUserDto :=
  match update_password dto with
  | Some p =>
      if truthy (Some p)
      then {| update_userName := update_userName dto;
              update_email := update_email dto;
              update_password := Some (bcrypt_hash p (bcrypt_salt 10 n)) |}
      else dto
  | None => dto
  end.

(** The object [update] saves for the row [r] of key [i], and the row
    that results. *)
Definition saved_object (i : Z) (dto : UpdateUserDto) (r : UserRow) (n : nat) : UserEntity.t :=
  spread (delete_password (hydrate i r)) (hashed_patch dto n).

Definition updated_row (i : Z) (dto : UpdateUserDto) (r : UserRow) (n : nat) : UserRow :=
  merge_row (saved_object i dto r n) r.

(** The part of [update] after the email check: hash, save, strip. *)
Definition update_tail (i : Z) (r : UserRow) (dto : UpdateUserDto) : M UserEntity.t :=
  let* updateUserDto :=
    match update_password dto with
    | Some password =>
        if truthy (Some password)
        then
          let* salt := genSalt 10 in
          let* hashed := hash password salt in
          ret {| update_userName := update_userName dto;
                 update_email := update_email dto;
                 update_password := Some hashed |}
        else ret dto
    | None => ret dto
    end in
  let* updatedUser := save (spread (delete_password (hydrate i r)) updateUserDto) in
  ret (delete_password updatedUser).

End Outcomes.

(** The email check of [update] lets the patch through. *)
Definition email_passes (dto : UpdateUserDto) (r : UserRow) (t : gmap Z UserRow) : Prop :=
  match update_email dto with
  | Some e => e = "" ∨ e = row_email r ∨ first_by_email e t = None
  | None => True
  end.

#[local] Instance email_passes_dec dto r t : Decision (email_passes dto r t).
Proof. unfold email_passes. destruct (update_email dto); apply _. Defined.

(** The entropy source after [update]: one salt is drawn for a truthy
    password, none otherwise. *)
Definition entropy_after (dto : UpdateUserDto) (n : nat) : nat :=
  if truthy (update_password dto) then S n else n.


#[local] Instance email_unused_dec e t : Decision (email_unused e t).
Proof.
  refine (cast_if (decide (map_Forall (λ _ r, row_email r ≠ e) t)));
    unfold email_unused, map_Forall in *; naive_solver.
Defined.

(** The message of the not-found error for the id [i]. *)
Definition not_found (i : Z) : Exception :=
  NotFoundException ("User with ID " +:+ pretty i +:+ " not found").

(** The error of [create] on an email that is already stored. *)
Definition duplicate_email : Exception :=
  BadRequestException "User with this email already exists".

(** An outbound object carries a hashed refresh token. *)
Definition exposes_refreshToken (u : UserEntity.t) : Prop :=
  ∃ h, UserEntity.refreshToken u = Some (Some h).


(** Every key of the table is below the next value of the sequence. *)
Definition sequence_fresh (w : World) : Prop :=
  map_Forall (λ i _, i < sequence w) (table w).

#[local] Instance sequence_fresh_dec w : Decision (sequence_fresh w).
Proof. unfold sequence_fresh. apply _. Defined.

(** The outbound view of a stored row: the entity without its password. *)
Definition view (kr : Z * UserRow) : UserEntity.t :=
  delete_password (uncurry hydrate kr).

(** The items [findAll] returns for the page [k]; none when it throws. *)
Definition page_items (w : World) (k : nat) : list UserEntity.t :=
  match fst (findAll {| page := Some (Z.of_nat k); limit := None |} w) with
  | Return p => items p
  | Throw _ => []
  end.

(** The columns of a row other than the refresh token. *)
Definition without_token (r : UserRow) : string * string * string * Z :=
  (row_userName r, row_email r, row_password r, row_createdAt r).

(** A query by email alone. *)
Definition by_email (e : string) : UserEntity.t :=
  UserEntity.set_email e UserEntity.new.

(** The patch without any property. *)
Definition empty_patch : UpdateUserDto :=
  {| update_userName := None; update_email := None; update_password := None |}.

(** The errors of [create] and [update]. *)
Definition feature_disabled : Exception :=
  BadRequestException "Database functionality is disabled".

Definition email_in_use : Exception :=
  BadRequestException "Email is already in use".

Definition unauthorized : Exception :=
  UnauthorizedException "User not found with the provided email".

(** ** A concrete world for examples *)

(** A toy instance of the hashing library: the hash keeps the first
    character of the salt and the data in clear, which is enough to meet
    [BcryptLaws]. *)
Definition toy_salt (rounds : Z) (n : nat) : string :=
  String (Ascii.ascii_of_nat (65 + n)) (pretty rounds).
Definition toy_hash (data salt : string) : string :=
  match salt with
  | String c _ => String c data
  | EmptyString => String (Ascii.ascii_of_nat 36) data
  end.
Definition toy_compare (data encrypted : string) : bool :=
  match encrypted with
  | String _ d => String.eqb data d
  | EmptyString => false
  end.
Definition toy : Bcrypt :=
  {| bcrypt_salt := toy_salt; bcrypt_hash := toy_hash; bcrypt_compare := toy_compare |}.









Definition empty_world : World := mkWorld ∅ 1 1000 0.

Definition seed (n : nat) : list (Z * UserRow) :=
  (λ k : nat, (Z.of_nat (S k),
     mkRow ("user" +:+ pretty (S k)) ("u" +:+ pretty (S k) +:+ "@kdl.test")
           (toy_hash "secret" (toy_salt 10 k)) None (1000 + Z.of_nat k))) <$> seq 0 n.

Definition seeded (n : nat) : World :=
  mkWorld (list_to_map (seed n)) (Z.of_nat (S n)) (1000 + Z.of_nat n) n.

(** Two users, the first with the empty string for email. *)
Definition blank_email_world : World :=
  mkWorld (<[2 := mkRow "bob" "bob@kdl.test" (toy_hash "secret" (toy_salt 10 1)) None 1001]>
            (<[1 := mkRow "ghost" "" (toy_hash "secret" (toy_salt 10 0)) None 1000]> ∅))
    3 1002 2.

(** Two seeded users after the first was issued a refresh token. *)
Definition token_world : World :=
  snd (@updateRefreshToken toy 1 "refresh.jwt" (seeded 2)).

(** The first seeded row. *)
Definition user1_row : UserRow :=
  mkRow "user1" "u1@kdl.test" (toy_hash "secret" (toy_salt 10 0)) None 1000.

Definition blank_email_patch : UpdateUserDto :=
  {| update_userName := None; update_email := Some ""; update_password := None |}.

Definition rename_patch : UpdateUserDto :=
  {| update_userName := Some "renamed"; update_email := Some "first@kdl.test";
     update_password := None |}.

Definition user1_again : CreateUserDto :=
  {| create_userName := "impostor"; create_email := "u1@kdl.test";
     create_password := "whatever" |}.

Definition alice : CreateUserDto :=
  {| create_userName := "alice"; create_email := "alice@kdl.test";
     create_password := "wonderland" |}.

(** A repository that answers an unconstrained lookup with no row. *)
Definition no_row : gmap Z UserRow → option (Z * UserRow) := λ _, None.

Definition second_row : UserRow :=
  mkRow "user2" "u2@kdl.test" (toy_hash "secret" (toy_salt 10 1)) None 1001.

Definition take_email_patch : UpdateUserDto :=
  {| update_userName := None; update_email := Some "u2@kdl.test";
     update_password := None |}.

Definition second_page : PaginationDto := {| page := Some 2; limit := Some 10 |}.

Definition third_page : PaginationDto := {| page := Some 3; limit := Some 10 |}.

(** A decidable proposition about concrete worlds, settled by evaluation. *)
Ltac by_evaluation := apply (bool_decide_unpack _); vm_compute; exact I.
(** ** Properties of the repository *)

Lemma first_by_email_Some e t i r :
  first_by_email e t = Some (i, r) → t !! i = Some r ∧ row_email r = e.
Proof.
  unfold first_by_email. intros H.
  destruct (list_find _ _) as [[n kr]|] eqn:Hfind; simplify_eq/=.
  apply list_find_Some in Hfind as (Hl & He & _).
  split; [|done].
  apply elem_of_map_to_list, list_elem_of_lookup. by exists n.
Qed.

Lemma first_by_email_None e t :
  first_by_email e t = None ↔ ∀ i r, t !! i = Some r → row_email r ≠ e.
Proof.
  unfold first_by_email. rewrite fmap_None, list_find_None, Forall_forall.
  split.
  - intros H i r Hir. by apply (H (i, r)), elem_of_map_to_list.
  - intros H [i r] Hin. by apply (H i r), elem_of_map_to_list.
Qed.

Lemma first_by_email_is_Some e t i r :
  t !! i = Some r → row_email r = e → is_Some (first_by_email e t).
Proof.
  intros Hir He. destruct (first_by_email e t) eqn:Hf; [by eexists|].
  rewrite first_by_email_None in Hf. by destruct (Hf i r).
Qed.

Lemma unique_emails_insert t i r :
  unique_emails t →
  (∀ j s, t !! j = Some s → j ≠ i → row_email s ≠ row_email r) →
  unique_emails (<[i := r]> t).
Proof.
  intros Hu Hfresh j k a b Hj Hk Hab.
  rewrite lookup_insert in Hj, Hk.
  repeat case_decide; simplify_eq; try done;
    try (exfalso; eapply Hfresh; eauto; congruence).
  by apply (Hu j k a b).
Qed.

Lemma by_createdAt_desc_elem t i r :
  (i, r) ∈ by_createdAt_desc t ↔ t !! i = Some r.
Proof.
  unfold by_createdAt_desc. rewrite merge_sort_Permutation.
  apply elem_of_map_to_list.
Qed.

Lemma by_createdAt_desc_length t : length (by_createdAt_desc t) = size t.
Proof.
  unfold by_createdAt_desc. rewrite merge_sort_Permutation.
  apply length_map_to_list.
Qed.

(** ** What each operation does *)

Section Operations.
Context {B : Bcrypt}.
Variable databaseEnabled : bool.

Lemma findById_found w i r :
  table w !! i = Some r →
  findById i w = (Return (delete_password (hydrate i r)), w).
Proof.
  intros Hr. unfold findById, try_catch, bind, findOneBy_id. by rewrite Hr.
Qed.

Lemma findById_missing w i :
  table w !! i = None →
  findById i w =
    (Throw (NotFoundException ("User with ID " +:+ pretty i +:+ " not found")), w).
Proof.
  intros Hr. unfold findById, try_catch, bind, findOneBy_id. by rewrite Hr.
Qed.

Lemma findById_inv w i u w' :
  findById i w = (Return u, w') →
  w' = w ∧ ∃ r, table w !! i = Some r ∧ u = delete_password (hydrate i r).
Proof.
  destruct (table w !! i) as [r|] eqn:Hr.
  - rewrite (findById_found _ _ _ Hr). intros [= <- <-]. eauto.
  - by rewrite (findById_missing _ _ Hr).
Qed.

Lemma create_ok dto w :
  databaseEnabled = true →
  first_by_email (create_email dto) (table w) = None →
  create databaseEnabled dto w = (Return (created_user dto w), created_world dto w).
Proof.
  intros -> Hnone.
  unfold create, try_catch, bind, findOneBy_email; simpl. by rewrite Hnone.
Qed.

Lemma create_inv dto w u w' :
  create databaseEnabled dto w = (Return u, w') →
  databaseEnabled = true ∧ first_by_email (create_email dto) (table w) = None ∧
  u = created_user dto w ∧ w' = created_world dto w.
Proof.
  unfold create. destruct databaseEnabled; simpl; [|by unfold throw].
  unfold try_catch, bind, findOneBy_email; simpl.
  destruct (first_by_email _ _) as [[k r]|] eqn:Hf; simpl; [by unfold throw|].
  by intros [= <- <-].
Qed.

Lemma create_duplicate dto w :
  databaseEnabled = true →
  is_Some (first_by_email (create_email dto) (table w)) →
  create databaseEnabled dto w =
    (Throw (BadRequestException "User with this email already exists"), w).
Proof.
  intros -> [[k r] Hf].
  unfold create, try_catch, bind, findOneBy_email; simpl. by rewrite Hf.
Qed.

Lemma create_disabled dto w :
  databaseEnabled = false →
  create databaseEnabled dto w =
    (Throw (BadRequestException "Database functionality is disabled"), w).
Proof. by intros ->. Qed.

Lemma save_stored i r obj w :
  table w !! i = Some r → UserEntity.id obj = Some i →
  save obj w = (Return obj, with_table (<[i := merge_row obj r]> (table w)) w).
Proof. intros Hr Hid. unfold save. by rewrite Hid, Hr. Qed.

Lemma update_tail_found i dto w r :
  table w !! i = Some r →
  update_tail i r dto w =
    (Return (delete_password (saved_object i dto r (entropy w))),
     mkWorld (<[i := updated_row i dto r (entropy w)]> (table w))
       (sequence w) (clock w) (entropy_after dto (entropy w))).
Proof.
  intros Hr.
  unfold update_tail, updated_row, saved_object, hashed_patch, entropy_after.
  destruct (update_password dto) as [p|]; [destruct (truthy (Some p))|];
    unfold bind, genSalt, hash, ret; simpl;
    (erewrite save_stored; [done|by simpl|done]).
Qed.

Lemma update_checked i dto w r :
  table w !! i = Some r →
  (email_passes dto r (table w) → update i dto w = update_tail i r dto w) ∧
  (¬ email_passes dto r (table w) →
   update i dto w = (Throw (BadRequestException "Email is already in use"), w)).
Proof.
  intros Hr. remember (update i dto w) as res eqn:Hres.
  unfold update, try_catch, bind at 1 in Hres.
  rewrite (findById_found _ _ _ Hr) in Hres.
  fold (update_tail i r dto) in Hres.
  pose proof (update_tail_found i dto w r Hr) as Htail.
  unfold email_passes.
  destruct (update_email dto) as [e|]; simpl in Hres.
  2: { unfold bind at 1 in Hres; simpl in Hres. rewrite Htail in Hres.
       rewrite Htail. by split. }
  destruct (String.eqb_spec e "") as [Hempty|He]; simpl in Hres.
  { unfold bind at 1 in Hres; simpl in Hres. rewrite Htail in Hres.
    rewrite Htail. split; [done|]. intros []. by left. }
  destruct (decide (e = row_email r)) as [Hown|Hown].
  { rewrite bool_decide_eq_false_2 in Hres by (intros Hne; apply Hne; by f_equal).
    unfold bind at 1 in Hres; simpl in Hres. rewrite Htail in Hres.
    rewrite Htail. split; [done|]. intros []. auto. }
  rewrite bool_decide_eq_true_2 in Hres by congruence.
  unfold bind at 1 2, findOneBy_email at 1 in Hres.
  destruct (first_by_email e (table w)) as [[k s]|] eqn:Hf; simpl in Hres.
  - split; [|done]. intros [?|[?|?]]; congruence.
  - rewrite Htail in Hres. rewrite Htail. split; [done|]. intros []. auto.
Qed.

Lemma update_found i dto w r :
  table w !! i = Some r →
  update i dto w =
    if decide (email_passes dto r (table w))
    then (Return (delete_password (saved_object i dto r (entropy w))),
          mkWorld (<[i := updated_row i dto r (entropy w)]> (table w))
            (sequence w) (clock w) (entropy_after dto (entropy w)))
    else (Throw (BadRequestException "Email is already in use"), w).
Proof.
  intros Hr. destruct (update_checked i dto w r Hr) as [Hok Hno].
  case_decide; [rewrite Hok by done; by apply update_tail_found | by apply Hno].
Qed.

Lemma update_missing i dto w :
  table w !! i = None →
  update i dto w =
    (Throw (NotFoundException ("User with ID " +:+ pretty i +:+ " not found")), w).
Proof.
  intros Hr. unfold update, try_catch, bind at 1.
  by rewrite (findById_missing _ _ Hr).
Qed.

Lemma update_inv i dto w u w' :
  update i dto w = (Return u, w') →
  ∃ r, table w !! i = Some r ∧ email_passes dto r (table w) ∧
    u = delete_password (saved_object i dto r (entropy w)) ∧
    w' = mkWorld (<[i := updated_row i dto r (entropy w)]> (table w))
           (sequence w) (clock w) (entropy_after dto (entropy w)).
Proof.
  destruct (table w !! i) as [r|] eqn:Hr.
  - rewrite (update_found _ _ _ _ Hr). case_decide; [|done].
    intros [= <- <-]. by exists r.
  - by rewrite (update_missing _ _ _ Hr).
Qed.

Lemma remove_found i w r :
  table w !! i = Some r →
  remove i w = (Return (), with_table (delete i (table w)) w).
Proof. intros Hr. unfold remove, try_catch, bind, delete_id. by rewrite Hr. Qed.

Lemma remove_missing i w :
  table w !! i = None →
  remove i w =
    (Throw (NotFoundException ("User with ID " +:+ pretty i +:+ " not found")), w).
Proof. intros Hr. unfold remove, try_catch, bind, delete_id. by rewrite Hr. Qed.

Lemma updateRefreshToken_found i token w r :
  table w !! i = Some r →
  updateRefreshToken i token w =
    (Return (),
     mkWorld (<[i := mkRow (row_userName r) (row_email r) (row_password r)
                        (Some (bcrypt_hash token (bcrypt_salt 10 (entropy w))))
                        (row_createdAt r)]> (table w))
       (sequence w) (clock w) (S (entropy w))).
Proof.
  intros Hr.
  unfold updateRefreshToken, try_catch, bind, hash_rounds, bind, genSalt, hash,
    update_refreshToken, ret; simpl.
  by rewrite Hr.
Qed.

Lemma updateRefreshToken_missing i token w :
  table w !! i = None →
  updateRefreshToken i token w =
    (Return (), mkWorld (table w) (sequence w) (clock w) (S (entropy w))).
Proof.
  intros Hr.
  unfold updateRefreshToken, try_catch, bind, hash_rounds, bind, genSalt, hash,
    update_refreshToken, ret; simpl.
  by rewrite Hr.
Qed.

Lemma removeRefreshToken_found i w r :
  table w !! i = Some r →
  removeRefreshToken i w =
    (Return (),
     with_table (<[i := mkRow (row_userName r) (row_email r) (row_password r) None
                           (row_createdAt r)]> (table w)) w).
Proof.
  intros Hr. unfold removeRefreshToken, try_catch, bind, update_refreshToken, ret.
  by rewrite Hr.
Qed.

Lemma removeRefreshToken_missing i w :
  table w !! i = None → removeRefreshToken i w = (Return (), w).
Proof.
  intros Hr. unfold removeRefreshToken, try_catch, bind, update_refreshToken, ret.
  by rewrite Hr.
Qed.

End Operations.

Lemma findAll_page d w :
  1 ≤ default 1 (page d) →
  findAll d w =
    (Return {| items := delete_password <$> (uncurry hydrate <$>
                 firstn 10 (skipn (Z.to_nat ((default 1 (page d) - 1) * 10))
                   (by_createdAt_desc (table w))));
               total := Z.of_nat (size (table w));
               page_number := default 1 (page d);
               pageSize := 10;
               totalPages := Math_ceil_div (Z.of_nat (size (table w))) 10 |}, w).
Proof.
  intros Hp. unfold findAll, try_catch, bind, findAndCount.
  change (PaginationDto_get d "page") with (page d).
  change (PaginationDto_get d "pageSize") with (@None Z). simpl.
  by rewrite bool_decide_eq_false_2 by lia.
Qed.

(** On fifteen users, page 2 holds the five oldest, newest first. *)
Example findAll_page2_of_fifteen :
  ∃ p, findAll {| page := Some 2; limit := Some 10 |} (seeded 15) = (Return p, seeded 15) ∧
    UserEntity.id <$> items p = [Some 5; Some 4; Some 3; Some 2; Some 1] ∧
    total p = 15 ∧ totalPages p = 2.
Proof.
  eexists. split; [by rewrite findAll_page|].
  repeat split; vm_compute; reflexivity.
Qed.

(** The [limit] of the DTO is never read. *)
Lemma findAll_limit_unused p l l' w :
  findAll {| page := p; limit := l |} w = findAll {| page := p; limit := l' |} w.
Proof. reflexivity. Qed.

Lemma findAll_items d w p w' :
  findAll d w = (Return p, w') →
  w' = w ∧
  ∀ u, u ∈ items p →
    ∃ i r, table w !! i = Some r ∧ u = delete_password (hydrate i r).
Proof.
  unfold findAll, try_catch, bind, findAndCount.
  case_bool_decide; [by unfold throw|].
  intros [= <- <-]. split; [done|]. simpl. intros u Hu.
  apply list_elem_of_fmap in Hu as (e & -> & He).
  apply list_elem_of_fmap in He as ([i r] & -> & Hir).
  exists i, r. split; [|done].
  apply by_createdAt_desc_elem.
  by apply subseteq_take, subseteq_drop in Hir.
Qed.

Lemma toy_laws : BcryptLaws toy.
Proof.
  split; simpl.
  - intros data salt. unfold toy_hash.
    destruct salt; simpl; apply String.eqb_refl.
  - intros data salt Heq.
    assert (String.length (toy_hash data salt) = String.length data) as Hlen
      by (by rewrite Heq).
    unfold toy_hash in Hlen. destruct salt; simpl in Hlen; lia.
Qed.


(** ** The properties *)

Section Properties.
Context {B : Bcrypt}.
Variable databaseEnabled : bool.

(** C1 (the code at the failing input). [findAll] reads a property
    [pageSize] that [PaginationDto] does not declare, so the page size is
    always the default 10 and the supplied [limit] has no effect: with
    page 1 and limit 5 over six stored users it returns all six items,
    reports [pageSize] 10 and [totalPages] 1, where a page size of 5 would
    give five items and two pages. *)
Theorem findAll_page1_limit5_returns_six :
  ∃ p, findAll {| page := Some 1; limit := Some 5 |} (seeded 6) = (Return p, seeded 6) ∧
    length (items p) = 6%nat ∧ total p = 6 ∧ pageSize p = 10 ∧ totalPages p = 1 ∧
    Math_ceil_div 6 5 = 2.
Proof.
  eexists. split; [by rewrite findAll_page|].
  repeat split; vm_compute; reflexivity.
Qed.

(** C2 (as amended). [create], [findAll], [findById] and [update] return
    objects without the password property, and only that property is
    removed: [findById], [update] and every item of [findAll] carry the
    [refreshToken] column exactly as it is stored, and the object
    [create] returns carries the null refresh token of the new row. *)
Theorem password_stripped_refreshToken_kept w :
  (∀ i r, table w !! i = Some r →
     ∃ u, findById i w = (Return u, w) ∧ UserEntity.password u = None ∧
          UserEntity.refreshToken u = Some (row_refreshToken r)) ∧
  (∀ d p w', findAll d w = (Return p, w') →
     ∀ u, u ∈ items p →
       UserEntity.password u = None ∧
       ∃ i r, table w !! i = Some r ∧ UserEntity.id u = Some i ∧
              UserEntity.refreshToken u = Some (row_refreshToken r)) ∧
  (∀ i patch u w', update i patch w = (Return u, w') →
     UserEntity.password u = None ∧
     ∃ r, table w !! i = Some r ∧
          UserEntity.refreshToken u = Some (row_refreshToken r)) ∧
  (∀ dto u w', create databaseEnabled dto w = (Return u, w') →
     UserEntity.password u = None ∧ UserEntity.refreshToken u = Some None).
Proof.
  split; [|split; [|split]].
  - intros i r Hr. eexists. split; [by apply findById_found|done].
  - intros d p w' [_ Hitems]%findAll_items u Hin.
    destruct (Hitems u Hin) as (i & r & Hr & ->).
    split; [done|]. by exists i, r.
  - intros i patch u w' (r & Hr & _ & -> & _)%update_inv.
    split; [done|]. by exists r.
  - by intros dto u w' (_ & _ & -> & _)%create_inv.
Qed.

(** C3. Starting from a table whose emails are pairwise distinct, every
    successful [create] and every successful [update] of a validated
    patch, one that changes the email included, leaves a table whose
    emails are pairwise distinct: [create] looks the email up before it
    writes, and [update] does so for an email that differs from the
    user's own. *)
Theorem unique_emails_preserved w :
  unique_emails (table w) →
  (∀ dto u w', create databaseEnabled dto w = (Return u, w') →
     unique_emails (table w')) ∧
  (∀ i patch u w', UpdateUserDto_email_validated patch →
     update i patch w = (Return u, w') → unique_emails (table w')).
Proof.
  intros Hu. split.
  - intros dto u w' (_ & Hfree & _ & ->)%create_inv. simpl.
    apply unique_emails_insert; [done|].
    intros j s Hj _. rewrite first_by_email_None in Hfree. by apply (Hfree j).
  - intros i patch u w' Hne (r & Hr & Hpass & _ & ->)%update_inv. simpl.
    apply unique_emails_insert; [done|].
    intros j s Hj Hji.
    assert (row_email (updated_row i patch r (entropy w))
            = default (row_email r) (update_email patch)) as ->.
    { unfold updated_row, saved_object, hashed_patch.
      destruct patch as [n [e|] [p|]]; simpl; try destruct (negb _); done. }
    unfold email_passes in Hpass. unfold UpdateUserDto_email_validated in Hne.
    destruct (update_email patch) as [e|]; simpl.
    + destruct Hpass as [->|[->|Hfree]]; [done| |].
      * intros Heq. by apply Hji, (Hu j i s r).
      * rewrite first_by_email_None in Hfree. by apply (Hfree j).
    + intros Heq. by apply Hji, (Hu j i s r).
Qed.

(** C4. With persistence enabled, [create] on an input whose email is not
    stored succeeds: it returns an object with a new id, the user name
    and the email of the input and no password property, and stores
    under that id a row with that user name and email and the hash of the
    input's password, leaving the other rows as they were. [findById] on
    a stored id and [findAll] on the first page return, and whatever
    [findAll], [findById] and [update] return has no password property. *)
Theorem results_have_no_password w :
  (∀ dto, databaseEnabled = true → email_unused (create_email dto) (table w) →
     ∃ u w' i r, create databaseEnabled dto w = (Return u, w') ∧
       UserEntity.password u = None ∧
       UserEntity.id u = Some i ∧
       UserEntity.userName u = Some (create_userName dto) ∧
       UserEntity.email u = Some (create_email dto) ∧
       table w' !! i = Some r ∧
       row_userName r = create_userName dto ∧
       row_email r = create_email dto ∧
       row_password r =
         bcrypt_hash (create_password dto) (bcrypt_salt 10 (entropy w)) ∧
       (∀ j, j ≠ i → table w' !! j = table w !! j)) ∧
  (∀ d p w', findAll d w = (Return p, w') →
     Forall (λ u, UserEntity.password u = None) (items p)) ∧
  (∃ p, findAll PaginationDto_new w = (Return p, w) ∧
     length (items p) = (10 `min` size (table w))%nat) ∧
  (∀ i u w', findById i w = (Return u, w') → UserEntity.password u = None) ∧
  (∀ i r, table w !! i = Some r →
     ∃ u, findById i w = (Return u, w) ∧
       UserEntity.id u = Some i ∧
       UserEntity.userName u = Some (row_userName r) ∧
       UserEntity.email u = Some (row_email r)) ∧
  (∀ i patch u w', update i patch w = (Return u, w') → UserEntity.password u = None).
Proof.
  split; [|split; [|split; [|split; [|split]]]].
  - intros dto Hen Hfree.
    exists (created_user dto w), (created_world dto w), (sequence w), (created_row dto w).
    split; [apply create_ok; [done|]; by apply first_by_email_None|].
    simpl. rewrite lookup_insert_eq. repeat split.
    intros j Hj. by apply lookup_insert_ne.
  - intros d p w' [_ Hitems]%findAll_items. apply Forall_forall. intros u Hin.
    by destruct (Hitems u Hin) as (i & r & _ & ->).
  - eexists. split; [by apply findAll_page|]. cbn [items].
    rewrite !length_fmap, length_take, length_drop, by_createdAt_desc_length.
    change (Z.to_nat _) with 0%nat. by rewrite Nat.sub_0_r.
  - by intros i u w' (_ & r & _ & ->)%findById_inv.
  - intros i r Hr. eexists. split; [by apply findById_found|done].
  - by intros i patch u w' (r & _ & _ & -> & _)%update_inv.
Qed.

(** C5 (as amended). With persistence enabled, [create] on an email that
    a stored user already has fails with the duplicate-email error and
    changes nothing; in particular, after a successful [create] a second
    [create] with the same email fails with that error. *)
Theorem create_on_stored_email_fails dto w :
  databaseEnabled = true →
  ((∃ i r, table w !! i = Some r ∧ row_email r = create_email dto) →
     create databaseEnabled dto w = (Throw duplicate_email, w)) ∧
  (∀ dto2 u w1, create databaseEnabled dto w = (Return u, w1) →
     create_email dto2 = create_email dto →
     create databaseEnabled dto2 w1 = (Throw duplicate_email, w1)).
Proof.
  intros Hen. split.
  - intros (i & r & Hr & He). apply create_duplicate; [done|].
    by apply (first_by_email_is_Some _ _ i r).
  - intros dto2 u w1 (_ & _ & _ & ->)%create_inv Heq.
    apply create_duplicate; [done|].
    apply (first_by_email_is_Some _ _ (sequence w) (created_row dto w)); [|done].
    simpl. apply lookup_insert_eq.
Qed.

(** C6. A successful [update] is a merge patch: of the stored row, the
    user name and the email take the patch's value where the patch has
    one and keep theirs otherwise; the password hash is kept when the
    patch has no password, and is the hash of the patch's password under
    the salt drawn at this call when it has a non-empty one; the refresh
    token and the creation time are kept, every other row is untouched,
    and the object returned is the new row without its password. *)
Theorem update_merge_patch i patch w u w' r :
  table w !! i = Some r →
  update i patch w = (Return u, w') →
  ∃ r', table w' !! i = Some r' ∧
    row_userName r' = default (row_userName r) (update_userName patch) ∧
    row_email r' = default (row_email r) (update_email patch) ∧
    row_password r' =
      match update_password patch with
      | None => row_password r
      | Some p => if truthy (Some p)
                  then bcrypt_hash p (bcrypt_salt 10 (entropy w)) else p
      end ∧
    row_refreshToken r' = row_refreshToken r ∧
    row_createdAt r' = row_createdAt r ∧
    (∀ j, j ≠ i → table w' !! j = table w !! j) ∧
    u = delete_password (hydrate i r').
Proof.
  intros Hr (r0 & Hr0 & _ & -> & ->)%update_inv.
  assert (r0 = r) as -> by congruence.
  exists (updated_row i patch r (entropy w)). simpl.
  split; [apply lookup_insert_eq|].
  unfold updated_row, saved_object, hashed_patch.
  destruct patch as [[n|] [e|] [p|]]; simpl;
    try destruct (negb (p =? "")%string); simpl;
    repeat split; try done; intros j Hj; by apply lookup_insert_ne.
Qed.


(** C8. [remove] fails with the not-found error exactly when the delete
    affects no row, which is when no user has that id, and then leaves the
    world as it was; on a stored id it succeeds, and [findById] on that id
    then fails with the not-found error. *)
Theorem remove_NotFound_iff i w :
  (∃ result w1, delete_id i w = (Return result, w1) ∧
     (affected result = 0 ↔ table w !! i = None) ∧
     (fst (remove i w) = Throw (not_found i) ↔ affected result = 0)) ∧
  (table w !! i = None → remove i w = (Throw (not_found i), w)) ∧
  (is_Some (table w !! i) →
     ∃ w', remove i w = (Return (), w') ∧
           findById i w' = (Throw (not_found i), w')).
Proof.
  split; [|split].
  - destruct (table w !! i) as [r|] eqn:Hr.
    + rewrite (remove_found _ _ _ Hr). unfold delete_id. rewrite Hr.
      eexists _, _. split; [done|]. simpl. split; split; done.
    + rewrite (remove_missing _ _ Hr). unfold delete_id. rewrite Hr.
      eexists _, _. split; [done|]. simpl. split; split; done.
  - apply remove_missing.
  - intros [r Hr]. eexists. split; [by apply (remove_found _ _ r)|].
    apply findById_missing. simpl. apply lookup_delete_eq.
Qed.

(** C9. For every user id and raw token, [updateRefreshToken] returns
    normally and what it stores in the row of that user is the bcrypt
    hash of the token under a salt of work factor 10 drawn at this call,
    which is not the raw token; it creates no row and touches no other
    row. [removeRefreshToken] after it returns normally and leaves the
    stored refresh token of that user null. *)
Theorem refreshToken_hashed_then_removed (L : BcryptLaws B) userId token w :
  ∃ w1 w2,
    updateRefreshToken userId token w = (Return (), w1) ∧
    (∀ r1, table w1 !! userId = Some r1 →
       row_refreshToken r1 = Some (bcrypt_hash token (bcrypt_salt 10 (entropy w))) ∧
       row_refreshToken r1 ≠ Some token) ∧
    (is_Some (table w1 !! userId) ↔ is_Some (table w !! userId)) ∧
    (∀ j, j ≠ userId → table w1 !! j = table w !! j) ∧
    removeRefreshToken userId w1 = (Return (), w2) ∧
    (is_Some (table w2 !! userId) ↔ is_Some (table w !! userId)) ∧
    (∀ r2, table w2 !! userId = Some r2 → row_refreshToken r2 = None).
Proof.
  destruct (table w !! userId) as [r|] eqn:Hr.
  - eexists _, _.
    split; [by apply updateRefreshToken_found|]. cbn [table].
    split.
    { rewrite lookup_insert_eq. intros r1 [= <-]. simpl.
      split; [done|]. intros [= Heq]. by apply hash_not_raw in Heq. }
    split; [by rewrite lookup_insert_eq|].
    split; [intros j Hj; by apply lookup_insert_ne|].
    split; [eapply removeRefreshToken_found; cbn [table]; apply lookup_insert_eq|].
    cbn [table with_table]. rewrite lookup_insert_eq.
    split; [done|]. by intros r2 [= <-].
  - eexists _, _.
    split; [by apply updateRefreshToken_missing|]. cbn [table].
    rewrite Hr.
    split; [done|]. split; [done|]. split; [done|].
    split; [by apply removeRefreshToken_missing|].
    cbn [table]. rewrite Hr. split; [done|]. done.
Qed.

(** C10. [updateRefreshToken] and [removeRefreshToken] return normally for
    every user id; for an id that no user has they leave the table as it
    was, where [remove] on that id fails with the not-found error. *)
Theorem refreshToken_updates_never_fail userId token w :
  fst (updateRefreshToken userId token w) = Return () ∧
  fst (removeRefreshToken userId w) = Return () ∧
  (table w !! userId = None →
     table (snd (updateRefreshToken userId token w)) = table w ∧
     snd (removeRefreshToken userId w) = w ∧
     fst (remove userId w) = Throw (not_found userId)).
Proof.
  destruct (table w !! userId) as [r|] eqn:Hr.
  - rewrite (updateRefreshToken_found _ _ _ _ Hr), (removeRefreshToken_found _ _ _ Hr).
    by repeat split.
  - rewrite (updateRefreshToken_missing _ _ _ Hr), (removeRefreshToken_missing _ _ Hr),
      (remove_missing _ _ Hr).
    by repeat split.
Qed.

End Properties.

(** ** Counterexamples and instances on the concrete worlds *)

(** C2, counterexample. After user 1 was issued a refresh token,
    [findById 1] returns an object whose [refreshToken] property is the
    stored hash: the hashed refresh token leaves the service. *)
Lemma findById_exposes_refreshToken :
  ∃ r u, table token_world !! 1 = Some r ∧
    row_refreshToken r = Some (toy_hash "refresh.jwt" (toy_salt 10 2)) ∧
    findById 1 token_world = (Return u, token_world) ∧
    UserEntity.refreshToken u = Some (row_refreshToken r) ∧
    exposes_refreshToken u.
Proof.
  eexists _, _. split; [vm_compute; reflexivity|].
  split; [reflexivity|].
  split; [vm_compute; reflexivity|].
  split; [reflexivity|]. by eexists.
Qed.

Lemma password_stripped_refreshToken_kept_witness :
  ∃ u, findById 1 token_world = (Return u, token_world) ∧
    UserEntity.password u = None ∧
    UserEntity.refreshToken u = Some (Some (toy_hash "refresh.jwt" (toy_salt 10 2))).
Proof.
  destruct (password_stripped_refreshToken_kept (B:=toy) true token_world) as [Hfind _].
  apply (Hfind 1 (mkRow "user1" "u1@kdl.test" (toy_hash "secret" (toy_salt 10 0))
                    (Some (toy_hash "refresh.jwt" (toy_salt 10 2))) 1000)).
  vm_compute; reflexivity.
Defined.

(** Beyond the validated patches: with a stored user whose email is the
    empty string, [update] of another user with the patch
    [{ email: "" }] runs no existence check (the empty string is falsy),
    succeeds, and leaves two users with the same email. *)
Lemma update_to_empty_email_breaks_uniqueness :
  unique_emails (table blank_email_world) ∧
  ∃ u w', @update toy 2 blank_email_patch blank_email_world = (Return u, w') ∧
    ¬ unique_emails (table w').
Proof.
  split; [by_evaluation|].
  eexists _, _. split; [vm_compute; reflexivity|].
  by_evaluation.
Qed.

Lemma unique_emails_preserved_witness :
  unique_emails (table (snd (@create toy true alice (seeded 2)))) ∧
  unique_emails (table (snd (@update toy 1 rename_patch (seeded 2)))).
Proof.
  assert (unique_emails (table (seeded 2))) as Hu
    by by_evaluation.
  destruct (unique_emails_preserved (B:=toy) true (seeded 2) Hu) as [Hcreate Hupdate].
  split.
  - eapply (Hcreate alice). vm_compute; reflexivity.
  - eapply (Hupdate 1 rename_patch); [discriminate|]. vm_compute; reflexivity.
Defined.

Lemma results_have_no_password_witness :
  ∃ u w' i r, @create toy true alice (seeded 2) = (Return u, w') ∧
    UserEntity.password u = None ∧
    UserEntity.id u = Some i ∧
    UserEntity.userName u = Some "alice" ∧
    UserEntity.email u = Some "alice@kdl.test" ∧
    table w' !! i = Some r ∧
    row_userName r = "alice" ∧
    row_email r = "alice@kdl.test" ∧
    row_password r = toy_hash "wonderland" (toy_salt 10 2) ∧
    (∀ j, j ≠ i → table w' !! j = table (seeded 2) !! j).
Proof.
  destruct (results_have_no_password (B:=toy) true (seeded 2)) as [Hcreate _].
  apply (Hcreate alice); [reflexivity|by_evaluation].
Defined.

(** C5, counterexample. With persistence disabled, [create] on the email
    of a stored user fails at the gate with the feature-disabled error,
    not with the duplicate-email error. *)
Lemma create_disabled_on_stored_email :
  table (seeded 2) !! 1 = Some user1_row ∧
  row_email user1_row = create_email user1_again ∧
  @create toy false user1_again (seeded 2) =
    (Throw (BadRequestException "Database functionality is disabled"), seeded 2) ∧
  BadRequestException "Database functionality is disabled" ≠ duplicate_email.
Proof.
  split; [vm_compute; reflexivity|]. split; [reflexivity|].
  split; [vm_compute; reflexivity|discriminate].
Qed.

Lemma create_on_stored_email_fails_witness :
  @create toy true user1_again (seeded 2) = (Throw duplicate_email, seeded 2) ∧
  ∃ u w1, @create toy true alice empty_world = (Return u, w1) ∧
    @create toy true alice w1 = (Throw duplicate_email, w1).
Proof.
  split.
  - apply (create_on_stored_email_fails (B:=toy) true user1_again (seeded 2)); [reflexivity|].
    exists 1, user1_row. split; [vm_compute|]; reflexivity.
  - eexists _, _. split; [vm_compute; reflexivity|].
    eapply (create_on_stored_email_fails (B:=toy) true alice empty_world);
      [reflexivity|vm_compute; reflexivity|reflexivity].
Defined.

Lemma update_merge_patch_witness :
  ∃ r', table (snd (@update toy 1 rename_patch (seeded 2))) !! 1 = Some r' ∧
    row_userName r' = "renamed" ∧ row_email r' = "first@kdl.test" ∧
    row_password r' = row_password user1_row ∧
    table (snd (@update toy 1 rename_patch (seeded 2))) !! 2 = table (seeded 2) !! 2.
Proof.
  edestruct (update_merge_patch (B:=toy) 1 rename_patch (seeded 2))
    as (r' & Hr' & Hname & Hemail & Hpw & _ & _ & Hframe & _);
    [vm_compute; reflexivity|vm_compute; reflexivity|].
  exists r'. split; [exact Hr'|]. split; [exact Hname|]. split; [exact Hemail|].
  split; [exact Hpw|]. by apply Hframe.
Defined.



Lemma remove_NotFound_iff_witness :
  remove 9 (seeded 2) = (Throw (not_found 9), seeded 2) ∧
  ∃ w', remove 1 (seeded 2) = (Return (), w') ∧
        findById 1 w' = (Throw (not_found 1), w').
Proof.
  split.
  - destruct (remove_NotFound_iff 9 (seeded 2)) as (_ & Hmissing & _).
    apply Hmissing. vm_compute; reflexivity.
  - destruct (remove_NotFound_iff 1 (seeded 2)) as (_ & _ & Hfound).
    apply Hfound. exists user1_row. vm_compute; reflexivity.
Defined.

Lemma refreshToken_hashed_then_removed_witness :
  ∃ w1 w2,
    @updateRefreshToken toy 1 "refresh.jwt" (seeded 2) = (Return (), w1) ∧
    (row_refreshToken <$> table w1 !! 1) =
      Some (Some (toy_hash "refresh.jwt" (toy_salt 10 2))) ∧
    removeRefreshToken 1 w1 = (Return (), w2) ∧
    (row_refreshToken <$> table w2 !! 1) = Some None.
Proof.
  destruct (refreshToken_hashed_then_removed (B:=toy) toy_laws 1 "refresh.jwt" (seeded 2))
    as (w1 & w2 & Hupdate & Hstored & [_ Hsome1] & _ & Hremove & [_ Hsome2] & Hnull).
  exists w1, w2.
  destruct Hsome1 as [r1 Hr1]; [by exists user1_row|].
  destruct Hsome2 as [r2 Hr2]; [by exists user1_row|].
  destruct (Hstored r1 Hr1) as [Hhash _].
  split; [exact Hupdate|]. split; [rewrite Hr1; simpl; by rewrite Hhash|].
  split; [exact Hremove|]. rewrite Hr2; simpl. by rewrite (Hnull r2 Hr2).
Defined.

Lemma refreshToken_updates_never_fail_witness :
  fst (@updateRefreshToken toy 9 "refresh.jwt" (seeded 2)) = Return () ∧
  fst (removeRefreshToken 9 (seeded 2)) = Return () ∧
  table (snd (@updateRefreshToken toy 9 "refresh.jwt" (seeded 2))) = table (seeded 2) ∧
  snd (removeRefreshToken 9 (seeded 2)) = seeded 2 ∧
  fst (remove 9 (seeded 2)) = Throw (not_found 9).
Proof.
  destruct (refreshToken_updates_never_fail (B:=toy) 9 "refresh.jwt" (seeded 2))
    as (Hupdate & Hremove & Hmissing).
  split; [exact Hupdate|]. split; [exact Hremove|].
  apply Hmissing. vm_compute; reflexivity.
Defined.

(** ** Further properties of the service *)

Section Authentication.
Context {B : Bcrypt}.
Variable databaseEnabled : bool.
Variable unconstrained : gmap Z UserRow → option (Z * UserRow).

Lemma findOne_email data e w :
  UserEntity.email data = Some e →
  findOne unconstrained data w =
    match first_by_email e (table w) with
    | Some kr => (Return (uncurry hydrate kr), w)
    | None => (Throw unauthorized, w)
    end.
Proof.
  intros He. unfold findOne, try_catch, bind, findOneBy_where_email. rewrite He.
  unfold findOneBy_email. by destruct (first_by_email e (table w)).
Qed.

(** X1. [findOne] on an email that some user has returns a stored user
    with that email as the row holds it, password hash included, and
    changes nothing; when emails are pairwise distinct it is the user
    with that email. *)
Theorem findOne_returns_stored_user data e w i r :
  UserEntity.email data = Some e →
  table w !! i = Some r → row_email r = e →
  ∃ j s, findOne unconstrained data w = (Return (hydrate j s), w) ∧
    table w !! j = Some s ∧ row_email s = e ∧
    UserEntity.password (hydrate j s) = Some (row_password s) ∧
    (unique_emails (table w) → j = i ∧ s = r).
Proof.
  intros He Hr Hre. rewrite (findOne_email _ _ _ He).
  destruct (first_by_email_is_Some e (table w) i r Hr Hre) as [[j s] Hf].
  rewrite Hf. apply first_by_email_Some in Hf as [Hs Hse].
  exists j, s. split; [done|]. split; [done|]. split; [done|]. split; [done|].
  intros Hu. assert (j = i) as -> by (apply (Hu j i s r); congruence).
  split; congruence.
Qed.

(** X2. [findOne] on an email that no user has fails with the
    unauthorized error, not with the not-found error of the lookup by id,
    and changes nothing; and it fails in no other case. *)
Theorem findOne_unauthorized_iff data e w :
  UserEntity.email data = Some e →
  (email_unused e (table w) ↔
   findOne unconstrained data w = (Throw unauthorized, w)) ∧
  (∀ err w', findOne unconstrained data w = (Throw err, w') →
     err = unauthorized ∧ w' = w ∧ email_unused e (table w)).
Proof.
  intros He. rewrite (findOne_email _ _ _ He).
  destruct (first_by_email e (table w)) as [[j s]|] eqn:Hf.
  - apply first_by_email_Some in Hf as [Hs Hse].
    split; [|done]. split; [|done]. intros Hun. by destruct (Hun j s).
  - rewrite first_by_email_None in Hf.
    split; [done|]. by intros err w' [= <- <-].
Qed.

(** X3. A user that [create] has stored can be authenticated: [findOne]
    on the email of the input then returns the user with the id [create]
    returned, and its password is a hash that is not the raw password and
    against which the raw password verifies. *)
Theorem create_then_findOne (L : BcryptLaws B) dto u w w' :
  create databaseEnabled dto w = (Return u, w') →
  ∃ u' h, findOne unconstrained (by_email (create_email dto)) w' = (Return u', w') ∧
    UserEntity.id u' = UserEntity.id u ∧
    UserEntity.password u' = Some h ∧
    h ≠ create_password dto ∧
    bcrypt_compare (create_password dto) h = true.
Proof.
  intros (_ & Hfree & -> & ->)%create_inv.
  rewrite (findOne_email _ (create_email dto)) by done.
  rewrite first_by_email_None in Hfree.
  destruct (first_by_email_is_Some (create_email dto) (table (created_world dto w))
              (sequence w) (created_row dto w)) as [[j s] Hf];
    [apply lookup_insert_eq|done|].
  rewrite Hf. apply first_by_email_Some in Hf as [Hs Hse]. simpl in Hs.
  rewrite lookup_insert in Hs. case_decide as Hj.
  - simplify_eq. eexists _, _. split; [done|]. simpl.
    split; [done|]. split; [done|]. split; [apply hash_not_raw|by apply compare_hash].
  - by destruct (Hfree j s).
Qed.

(** X4. What [create] returns is what [findById] then finds under the
    returned id: the same id, user name, email and creation time, no
    password, and a null refresh token. *)
Theorem create_then_findById dto u w w' :
  create databaseEnabled dto w = (Return u, w') →
  ∃ i u', UserEntity.id u = Some i ∧ findById i w' = (Return u', w') ∧
    UserEntity.id u' = UserEntity.id u ∧
    UserEntity.userName u' = UserEntity.userName u ∧
    UserEntity.email u' = UserEntity.email u ∧
    UserEntity.createdAt u' = UserEntity.createdAt u ∧
    UserEntity.password u' = None ∧
    UserEntity.refreshToken u' = Some None.
Proof.
  intros (_ & _ & -> & ->)%create_inv.
  exists (sequence w), (delete_password (hydrate (sequence w) (created_row dto w))).
  split; [done|]. split; [|done].
  apply findById_found. simpl. apply lookup_insert_eq.
Qed.

(** X5. [create] fails in exactly two cases, and then changes nothing:
    with the feature-disabled error when persistence is disabled, and
    with the duplicate-email error when it is enabled and some user has
    the email. *)
Theorem create_fails_iff dto w err w' :
  create databaseEnabled dto w = (Throw err, w') ↔
  w' = w ∧
  ((databaseEnabled = false ∧ err = feature_disabled) ∨
   (databaseEnabled = true ∧ err = duplicate_email ∧
    ∃ i r, table w !! i = Some r ∧ row_email r = create_email dto)).
Proof.
  destruct databaseEnabled eqn:Hen.
  - destruct (first_by_email (create_email dto) (table w)) as [[j s]|] eqn:Hf.
    + rewrite create_duplicate by (done || by eexists).
      apply first_by_email_Some in Hf as [Hs Hse].
      split.
      * intros [= <- <-]. split; [done|]. right.
        split; [done|]. split; [done|]. by exists j, s.
      * by intros (-> & [[? _]|(_ & -> & _)]).
    + rewrite create_ok by done.
      rewrite first_by_email_None in Hf.
      split; [done|]. intros (_ & [[? _]|(_ & _ & i & r & Hr & He)]); [done|].
      by destruct (Hf i r).
  - rewrite create_disabled by done.
    split.
    * intros [= <- <-]. auto.
    * by intros (-> & [[_ ->]|[? _]]).
Qed.

End Authentication.

Section Rows.
Context {B : Bcrypt}.
Variable databaseEnabled : bool.

Lemma sequence_fresh_insert_stored w i r r' next tick n :
  sequence_fresh w → table w !! i = Some r → sequence w ≤ next →
  sequence_fresh (mkWorld (<[i := r']> (table w)) next tick n).
Proof.
  intros Hw Hr Hnext. unfold sequence_fresh. simpl.
  apply map_Forall_insert_2.
  - specialize (Hw i r Hr). simpl in Hw. lia.
  - intros j s Hs. specialize (Hw j s Hs). simpl in Hw. lia.
Qed.

(** X6. When every stored id is below the next value of the sequence,
    a successful [create] returns that value as the id, which no stored
    user had; it adds exactly this one row, leaves every other row as it
    was, and the ids stay below the sequence. *)
Theorem create_adds_one_row dto u w w' :
  sequence_fresh w →
  create databaseEnabled dto w = (Return u, w') →
  UserEntity.id u = Some (sequence w) ∧
  table w !! sequence w = None ∧
  (∀ j, j ≠ sequence w → table w' !! j = table w !! j) ∧
  size (table w') = S (size (table w)) ∧
  sequence_fresh w'.
Proof.
  intros Hw (_ & _ & -> & ->)%create_inv.
  assert (table w !! sequence w = None) as Hnew.
  { destruct (table w !! sequence w) as [r|] eqn:Hr; [|done].
    specialize (Hw _ _ Hr). simpl in Hw. lia. }
  split; [done|]. split; [done|]. simpl.
  split; [intros j Hj; by apply lookup_insert_ne|].
  split; [by apply map_size_insert_None|].
  unfold sequence_fresh. simpl. apply map_Forall_insert_2; [lia|].
  intros j s Hs. specialize (Hw j s Hs). simpl in Hw. lia.
Qed.

(** X7. That every stored id is below the next value of the sequence is
    kept by [update], [remove], [updateRefreshToken] and
    [removeRefreshToken], whether they return or throw. *)
Theorem sequence_fresh_kept w :
  sequence_fresh w →
  (∀ i patch, sequence_fresh (snd (update i patch w))) ∧
  (∀ i, sequence_fresh (snd (remove i w))) ∧
  (∀ i token, sequence_fresh (snd (updateRefreshToken i token w))) ∧
  (∀ i, sequence_fresh (snd (removeRefreshToken i w))).
Proof.
  intros Hw. split; [|split; [|split]].
  - intros i patch. destruct (table w !! i) as [r|] eqn:Hr.
    + rewrite (update_found _ _ _ _ Hr). case_decide; [|done]. simpl.
      by apply (sequence_fresh_insert_stored w i r).
    + by rewrite (update_missing _ _ _ Hr).
  - intros i. destruct (table w !! i) as [r|] eqn:Hr.
    + rewrite (remove_found _ _ _ Hr). simpl.
      unfold sequence_fresh, with_table. simpl.
      intros j s [_ Hs]%lookup_delete_Some. by apply (Hw j s).
    + by rewrite (remove_missing _ _ Hr).
  - intros i token. destruct (table w !! i) as [r|] eqn:Hr.
    + rewrite (updateRefreshToken_found _ _ _ _ Hr). simpl.
      by apply (sequence_fresh_insert_stored w i r).
    + by rewrite (updateRefreshToken_missing _ _ _ Hr).
  - intros i. destruct (table w !! i) as [r|] eqn:Hr.
    + rewrite (removeRefreshToken_found _ _ _ Hr). simpl.
      by apply (sequence_fresh_insert_stored w i r).
    + by rewrite (removeRefreshToken_missing _ _ Hr).
Qed.

(** X8. [update] fails in exactly two cases, and then changes nothing:
    with the not-found error of [findById] when no user has the id, and
    with the email-in-use error when the patch has a non-empty email that
    differs from the user's own and that some user has. *)
Theorem update_fails_iff i patch w err w' :
  update i patch w = (Throw err, w') ↔
  w' = w ∧
  ((table w !! i = None ∧ err = not_found i) ∨
   (err = email_in_use ∧
    ∃ r e j s, table w !! i = Some r ∧ update_email patch = Some e ∧
      e ≠ "" ∧ e ≠ row_email r ∧ table w !! j = Some s ∧ row_email s = e)).
Proof.
  destruct (table w !! i) as [r|] eqn:Hr.
  - rewrite (update_found _ _ _ _ Hr). unfold email_passes.
    case_decide as Hpass.
    + split; [done|].
      intros (_ & [[? _]|(_ & r0 & e & j & s & [= <-] & He & Hne & Hown & Hs & Hse)]);
        [done|].
      rewrite He in Hpass. destruct Hpass as [?|[?|Hfree]]; [done..|].
      rewrite first_by_email_None in Hfree. by destruct (Hfree j s).
    + split; [|by intros (-> & [[? _]|[-> _]])].
      intros [= <- <-]. split; [done|]. right. split; [done|].
      destruct (update_email patch) as [e|]; [|by destruct Hpass].
      destruct (first_by_email e (table w)) as [[j s]|] eqn:Hf;
        [|destruct Hpass; auto].
      apply first_by_email_Some in Hf as [Hs Hse].
      exists r, e, j, s. repeat split; try done; intros ->; destruct Hpass; auto.
  - rewrite (update_missing _ _ _ Hr).
    split.
    + intros [= <- <-]. auto.
    + by intros (-> & [[_ ->]|(_ & r0 & e & j & s & ? & _)]).
Qed.

Lemma updated_row_stable i patch r n :
  update_password patch = None →
  updated_row i patch (updated_row i patch r n) n = updated_row i patch r n.
Proof.
  destruct patch as [[?|] [?|] p], r; simpl; by intros ->.
Qed.

Lemma saved_object_view i patch r n :
  delete_password (saved_object i patch r n) =
  delete_password (hydrate i (updated_row i patch r n)).
Proof.
  unfold updated_row, saved_object, hashed_patch.
  destruct patch as [[?|] [?|] [p|]], r; simpl; try destruct (negb _); done.
Qed.

(** X9. [update] with the patch without any property succeeds on a
    stored user, returns the user as [findById] does, and leaves the
    whole world as it was. *)
Theorem update_empty_patch i w r :
  table w !! i = Some r →
  update i empty_patch w = (Return (delete_password (hydrate i r)), w).
Proof.
  intros Hr. rewrite (update_found _ _ _ _ Hr).
  rewrite decide_True by done.
  assert (updated_row i empty_patch r (entropy w) = r) as -> by by destruct r.
  rewrite insert_id by done. by destruct w, r.
Qed.

(** X10. What a successful [update] returns is what [findById] on that
    id returns afterwards. *)
Theorem update_then_findById i patch u w w' :
  update i patch w = (Return u, w') →
  findById i w' = (Return u, w').
Proof.
  intros (r & Hr & _ & -> & ->)%update_inv.
  rewrite saved_object_view. apply findById_found. simpl. apply lookup_insert_eq.
Qed.

(** X11. A patch without password is idempotent: after a successful
    [update], the same [update] again succeeds, returns the same user and
    leaves the world as the first left it. *)
Theorem update_twice i patch u w w' :
  update_password patch = None →
  update i patch w = (Return u, w') →
  update i patch w' = (Return u, w').
Proof.
  intros Hp (r & Hr & Hpass & -> & ->)%update_inv.
  set (r' := updated_row i patch r (entropy w)).
  assert (entropy_after patch (entropy w) = entropy w) as Hent
    by (unfold entropy_after; by rewrite Hp).
  rewrite Hent.
  rewrite (update_found i patch _ r') by (simpl; apply lookup_insert_eq).
  rewrite decide_True; simpl.
  - rewrite Hent. subst r'. rewrite updated_row_stable by done.
    rewrite insert_insert_eq. do 2 f_equal.
    rewrite !saved_object_view. by rewrite updated_row_stable.
  - unfold email_passes. destruct (update_email patch) as [e|] eqn:He; [|done].
    right. left. subst r'. destruct patch as [[?|] ? ?]; simpl in *; by subst.
Qed.

End Rows.

Section RemoveAndTokens.
Context {B : Bcrypt}.
Variable databaseEnabled : bool.

(** X12. Removing a user frees its email: when emails are pairwise
    distinct and persistence is enabled, [remove] of a stored user
    succeeds and a [create] with that user's email then succeeds. *)
Theorem remove_frees_email i w r dto :
  databaseEnabled = true →
  unique_emails (table w) →
  table w !! i = Some r →
  create_email dto = row_email r →
  ∃ w1 u w2, remove i w = (Return (), w1) ∧
    create databaseEnabled dto w1 = (Return u, w2) ∧
    UserEntity.email u = Some (row_email r).
Proof.
  intros Hen Hu Hr He.
  eexists _, _, _. split; [by apply (remove_found _ _ r)|].
  split; [apply create_ok; [done|]|simpl; by rewrite He].
  apply first_by_email_None. simpl. intros j s [Hji Hs]%lookup_delete_Some Hse.
  apply Hji. apply (Hu i j r s); congruence.
Qed.

(** X13. [remove] of a stored user deletes that row and no other, so the
    table has one row less; the id is not given out again by the
    sequence, and a second [remove] of it fails with the not-found error. *)
Theorem remove_exactly_that_row i w r :
  table w !! i = Some r →
  ∃ w', remove i w = (Return (), w') ∧
    table w' !! i = None ∧
    (∀ j, j ≠ i → table w' !! j = table w !! j) ∧
    S (size (table w')) = size (table w) ∧
    sequence w' = sequence w ∧
    remove i w' = (Throw (not_found i), w').
Proof.
  intros Hr. eexists. split; [by apply (remove_found _ _ r)|]. simpl.
  split; [apply lookup_delete_eq|].
  split; [intros j Hj; by apply lookup_delete_ne|].
  split.
  { rewrite <- (insert_id (table w) i r Hr) at 2. rewrite <- insert_delete_eq.
    symmetry. apply map_size_insert_None, lookup_delete_eq. }
  split; [done|]. apply remove_missing. simpl. apply lookup_delete_eq.
Qed.

(** X14. Pairwise distinct emails are kept by [remove],
    [updateRefreshToken] and [removeRefreshToken], whether they return
    or throw. *)
Theorem unique_emails_kept w :
  unique_emails (table w) →
  (∀ i, unique_emails (table (snd (remove i w)))) ∧
  (∀ i token, unique_emails (table (snd (updateRefreshToken i token w)))) ∧
  (∀ i, unique_emails (table (snd (removeRefreshToken i w)))).
Proof.
  intros Hu. split; [|split].
  - intros i. destruct (table w !! i) as [r|] eqn:Hr.
    + rewrite (remove_found _ _ _ Hr). simpl.
      intros j k a b [_ Ha]%lookup_delete_Some [_ Hb]%lookup_delete_Some.
      by apply Hu.
    + by rewrite (remove_missing _ _ Hr).
  - intros i token. destruct (table w !! i) as [r|] eqn:Hr.
    + rewrite (updateRefreshToken_found _ _ _ _ Hr). simpl.
      apply unique_emails_insert; [done|]. simpl.
      intros j s Hs Hji Hse. by apply Hji, (Hu j i s r).
    + by rewrite (updateRefreshToken_missing _ _ _ Hr).
  - intros i. destruct (table w !! i) as [r|] eqn:Hr.
    + rewrite (removeRefreshToken_found _ _ _ Hr). simpl.
      apply unique_emails_insert; [done|]. simpl.
      intros j s Hs Hji Hse. by apply Hji, (Hu j i s r).
    + by rewrite (removeRefreshToken_missing _ _ Hr).
Qed.

(** X15. [updateRefreshToken] and [removeRefreshToken] write the refresh
    token and nothing else: they add and delete no row, and the user
    name, email, password hash and creation time of every row stay as
    they were. *)
Theorem refreshToken_ops_write_only_token i token w j :
  without_token <$> table (snd (updateRefreshToken i token w)) !! j
    = without_token <$> table w !! j ∧
  without_token <$> table (snd (removeRefreshToken i w)) !! j
    = without_token <$> table w !! j.
Proof.
  destruct (table w !! i) as [r|] eqn:Hr.
  - rewrite (updateRefreshToken_found _ _ _ _ Hr), (removeRefreshToken_found _ _ _ Hr).
    simpl. rewrite !lookup_insert.
    case_decide; [subst; by rewrite Hr|done].
  - by rewrite (updateRefreshToken_missing _ _ _ Hr), (removeRefreshToken_missing _ _ Hr).
Qed.

(** X16. The stored refresh token is the hash of the latest token
    issued: after [updateRefreshToken] for a stored user the row holds
    the hash of the token under the salt drawn at that call, against
    which the token verifies; a second [updateRefreshToken] replaces it
    by the hash of the second token under the next salt, against which
    the second token verifies. *)
Theorem refreshToken_latest_verifies (L : BcryptLaws B) i token token2 w r :
  table w !! i = Some r →
  ∃ w1 w2 h1 h2,
    updateRefreshToken i token w = (Return (), w1) ∧
    row_refreshToken <$> table w1 !! i = Some (Some h1) ∧
    h1 = bcrypt_hash token (bcrypt_salt 10 (entropy w)) ∧
    bcrypt_compare token h1 = true ∧
    updateRefreshToken i token2 w1 = (Return (), w2) ∧
    row_refreshToken <$> table w2 !! i = Some (Some h2) ∧
    h2 = bcrypt_hash token2 (bcrypt_salt 10 (S (entropy w))) ∧
    bcrypt_compare token2 h2 = true.
Proof.
  intros Hr. eexists _, _, _, _.
  split; [by apply updateRefreshToken_found|]. simpl.
  rewrite lookup_insert_eq. split; [done|]. split; [done|].
  split; [apply compare_hash|].
  split; [eapply updateRefreshToken_found; simpl; apply lookup_insert_eq|]. simpl.
  rewrite lookup_insert_eq. split; [done|]. split; [done|].
  apply compare_hash.
Qed.

(** X17. [removeRefreshToken] is idempotent, and on a user whose refresh
    token is already null, as on an id that no user has, it leaves the
    whole world as it was. *)
Theorem removeRefreshToken_twice i w :
  removeRefreshToken i (snd (removeRefreshToken i w))
    = (Return (), snd (removeRefreshToken i w)) ∧
  ((∀ h, row_refreshToken <$> table w !! i ≠ Some (Some h)) →
   removeRefreshToken i w = (Return (), w)).
Proof.
  destruct (table w !! i) as [r|] eqn:Hr.
  - rewrite (removeRefreshToken_found _ _ _ Hr). simpl. split.
    + erewrite removeRefreshToken_found by (simpl; apply lookup_insert_eq).
      unfold with_table. simpl. by rewrite insert_insert_eq.
    + intros Hnull. destruct r as [n e p [h|] c]; [by destruct (Hnull h)|].
      unfold with_table. simpl. rewrite insert_id by done. by destruct w.
  - rewrite (removeRefreshToken_missing _ _ Hr). simpl.
    by rewrite (removeRefreshToken_missing _ _ Hr).
Qed.

End RemoveAndTokens.

Section Listing.

Lemma Math_ceil_div_spec a b :
  0 < b → b * (Math_ceil_div a b - 1) < a ≤ b * Math_ceil_div a b.
Proof.
  intros Hb. unfold Math_ceil_div.
  pose proof (Z.div_mod (- a) b) as Hdiv.
  pose proof (Z.mod_pos_bound (- a) b Hb) as Hmod. lia.
Qed.

Lemma validate_page d : PaginationDto_validate d = true → 1 ≤ default 1 (page d).
Proof.
  unfold PaginationDto_validate, IsOptional, Min.
  destruct (page d) as [k|]; simpl; [|lia].
  intros [Hk _]%andb_true_iff. by apply bool_decide_eq_true in Hk.
Qed.

Lemma findAll_inv d w p w' :
  findAll d w = (Return p, w') →
  w' = w ∧ 1 ≤ default 1 (page d) ∧
  items p = view <$> take 10 (drop (Z.to_nat ((default 1 (page d) - 1) * 10))
                               (by_createdAt_desc (table w))) ∧
  total p = Z.of_nat (size (table w)) ∧
  page_number p = default 1 (page d) ∧
  pageSize p = 10 ∧
  totalPages p = Math_ceil_div (Z.of_nat (size (table w))) 10.
Proof.
  destruct (decide (1 ≤ default 1 (page d))) as [Hp|Hp].
  - rewrite (findAll_page _ _ Hp). intros [= <- <-]. simpl.
    by rewrite <- list_fmap_compose.
  - unfold findAll, try_catch, bind, findAndCount.
    change (PaginationDto_get d "page") with (page d).
    change (PaginationDto_get d "pageSize") with (@None Z). simpl.
    by rewrite bool_decide_eq_true_2 by lia.
Qed.

Lemma StronglySorted_lookup {A} (R : relation A) l a b x y :
  StronglySorted R l → (a < b)%nat →
  l !! a = Some x → l !! b = Some y → R x y.
Proof.
  intros Hl. revert a b. induction Hl as [|z l Hl IH Hz]; intros a b Hab Ha Hb; [done|].
  destruct b as [|b]; [lia|]. destruct a as [|a]; simpl in *.
  - simplify_eq. rewrite Forall_forall in Hz. apply Hz.
    apply list_elem_of_lookup. by exists b.
  - apply (IH a b); [lia|done..].
Qed.

#[local] Instance newer_total : Total newer.
Proof. intros a b. unfold newer. lia. Qed.

#[local] Instance newer_trans : Transitive newer.
Proof. intros a b c. unfold newer. lia. Qed.

Lemma chunks_cover {A} (l : list A) (c n : nat) :
  (length l ≤ c * n)%nat →
  mjoin ((λ k, take c (drop (c * k) l)) <$> seq 0 n) = l.
Proof.
  revert l. induction n as [|n IH]; intros l Hlen.
  - destruct l; [done|simpl in Hlen; lia].
  - rewrite <- cons_seq, <- fmap_S_seq, fmap_cons, <- list_fmap_compose. simpl.
    rewrite Nat.mul_0_r, drop_0.
    rewrite (list_fmap_ext _ (λ k, take c (drop (c * k) (drop c l)))).
    + rewrite IH by (rewrite length_drop; lia). apply take_drop.
    + intros _ k _. simpl. rewrite drop_drop. do 2 f_equal. lia.
Qed.

Lemma page_items_page w (k : nat) :
  page_items w (S k) =
    take 10 (drop (10 * k) (view <$> by_createdAt_desc (table w))).
Proof.
  unfold page_items. rewrite findAll_page by (simpl; lia). simpl.
  rewrite <- list_fmap_compose, fmap_take, fmap_drop.
  do 2 f_equal. lia.
Qed.

(** X18. On a DTO that passes validation and whose offset, 10 per
    earlier page, is a safe integer, [findAll] returns normally and
    changes nothing: it reports the requested page (1 when absent), page
    size 10 and the number of stored users, and returns the users left
    after skipping the offset, at most 10 of them. *)
Theorem findAll_valid_dto d w :
  PaginationDto_validate d = true →
  (default 1 (page d) - 1) * 10 ≤ MAX_SAFE_INTEGER →
  ∃ p, findAll d w = (Return p, w) ∧
    page_number p = default 1 (page d) ∧ pageSize p = 10 ∧
    total p = Z.of_nat (size (table w)) ∧
    Z.of_nat (length (items p)) =
      Z.max 0 (Z.min 10 (total p - 10 * (page_number p - 1))).
Proof.
  intros Hp%validate_page _. eexists. split; [by apply findAll_page|]. simpl.
  split; [done|]. split; [done|]. split; [done|].
  rewrite !length_fmap, length_take, length_drop, by_createdAt_desc_length. lia.
Qed.

(** X19. The items of a page are ordered newest first: an item that
    comes earlier in the list was not created before one that comes
    later. *)
Theorem findAll_newest_first d w p w' a b u v :
  findAll d w = (Return p, w') →
  (a < b)%nat → items p !! a = Some u → items p !! b = Some v →
  ∃ ca cb, UserEntity.createdAt u = Some ca ∧ UserEntity.createdAt v = Some cb ∧
    cb ≤ ca.
Proof.
  intros (_ & _ & Hitems & _)%findAll_inv Hab. rewrite Hitems.
  rewrite !list_lookup_fmap.
  intros [x [Hx ->]]%fmap_Some [y [Hy ->]]%fmap_Some.
  exists (row_createdAt x.2), (row_createdAt y.2).
  split; [by destruct x|]. split; [by destruct y|].
  apply lookup_take_Some in Hx as [Hx _], Hy as [Hy _].
  rewrite lookup_drop in Hx, Hy.
  eapply (StronglySorted_lookup newer _ _ _ x y); [|  |exact Hx|exact Hy]; [|lia].
  apply StronglySorted_merge_sort; apply _.
Qed.

(** X20. The pages cover the table: the items of the pages 1 to
    [totalPages] in turn are all stored users, newest first, each listed
    once. *)
Theorem findAll_pages_cover w :
  let last := Z.to_nat (Math_ceil_div (Z.of_nat (size (table w))) 10) in
  let listed := mjoin (page_items w <$> seq 1 last) in
  listed = view <$> by_createdAt_desc (table w) ∧
  listed ≡ₚ view <$> map_to_list (table w) ∧
  NoDup (UserEntity.id <$> listed).
Proof.
  intros last listed.
  assert (listed = view <$> by_createdAt_desc (table w)) as Hlisted.
  { subst listed. rewrite <- fmap_S_seq, <- list_fmap_compose.
    rewrite (list_fmap_ext _ (λ k, take 10 (drop (10 * k)
               (view <$> by_createdAt_desc (table w))))).
    - apply chunks_cover. rewrite length_fmap, by_createdAt_desc_length. subst last.
      pose proof (Math_ceil_div_spec (Z.of_nat (size (table w))) 10). lia.
    - intros _ k _. apply page_items_page. }
  split; [done|]. rewrite Hlisted. unfold by_createdAt_desc.
  split; [by rewrite merge_sort_Permutation|].
  rewrite merge_sort_Permutation, <- list_fmap_compose.
  rewrite (list_fmap_ext _ (Some ∘ fst)) by (by intros _ [? ?] _).
  rewrite list_fmap_compose. apply (NoDup_fmap_2 _), NoDup_fst_map_to_list.
Qed.

(** X21. A page past the last one is empty, not an error: when
    [findAll] returns for a page number above the [totalPages] it
    reports, it returns no items. *)
Theorem findAll_past_last_page d w p w' :
  findAll d w = (Return p, w') →
  totalPages p < page_number p →
  items p = [].
Proof.
  intros (_ & Hpage & -> & _ & -> & _ & ->)%findAll_inv Hlast.
  rewrite drop_ge; [done|]. rewrite by_createdAt_desc_length.
  pose proof (Math_ceil_div_spec (Z.of_nat (size (table w))) 10). lia.
Qed.

(** X22. [totalPages] is the least number of pages of 10 that hold all
    stored users: pages of 10 up to it hold them all, and one page less
    does not. *)
Theorem findAll_totalPages_least d w p w' :
  findAll d w = (Return p, w') →
  10 * (totalPages p - 1) < total p ≤ 10 * totalPages p.
Proof.
  intros (_ & _ & _ & -> & _ & _ & ->)%findAll_inv.
  by apply Math_ceil_div_spec.
Qed.

(** X23. No user is listed twice on a page: the ids of the items
    [findAll] returns are pairwise distinct. *)
Theorem findAll_no_user_twice d w p w' :
  findAll d w = (Return p, w') → NoDup (UserEntity.id <$> items p).
Proof.
  intros (_ & _ & -> & _)%findAll_inv.
  rewrite <- list_fmap_compose.
  rewrite (list_fmap_ext _ (Some ∘ fst)) by (by intros _ [? ?] _).
  rewrite list_fmap_compose. apply (NoDup_fmap_2 _).
  apply (sublist_NoDup _ ((by_createdAt_desc (table w)).*1)).
  - unfold by_createdAt_desc. rewrite merge_sort_Permutation.
    apply NoDup_fst_map_to_list.
  - apply fmap_sublist. etrans; [apply sublist_take|apply sublist_drop].
Qed.

End Listing.

Section Compositions.
Context {B : Bcrypt}.
Variable unconstrained : gmap Z UserRow → option (Z * UserRow).

(** X24. A change of email moves the login: when emails are pairwise
    distinct and [update] gives a stored user a new, non-empty email,
    [findOne] on the old email then fails with the unauthorized error and
    [findOne] on the new email returns that user. *)
Theorem update_email_moves_login i patch e u w w' r :
  unique_emails (table w) →
  table w !! i = Some r →
  update_email patch = Some e → e ≠ "" → e ≠ row_email r →
  update i patch w = (Return u, w') →
  findOne unconstrained (by_email (row_email r)) w' = (Throw unauthorized, w') ∧
  ∃ s, findOne unconstrained (by_email e) w' = (Return (hydrate i s), w') ∧
    table w' !! i = Some s ∧ row_email s = e.
Proof.
  intros Hu Hr He Hne Hown (r0 & Hr0 & Hpass & -> & ->)%update_inv.
  assert (r0 = r) as -> by congruence.
  unfold email_passes in Hpass. rewrite He in Hpass.
  destruct Hpass as [?|[?|Hfree]]; [done..|].
  rewrite first_by_email_None in Hfree.
  set (r' := updated_row i patch r (entropy w)).
  assert (row_email r' = e) as Hr'.
  { subst r'. unfold updated_row, saved_object, hashed_patch.
    destruct patch as [[?|] ? [p|]]; simpl in *; subst;
      simpl; try destruct (negb _); done. }
  rewrite (findOne_email _ (by_email (row_email r)) (row_email r)) by done.
  rewrite (findOne_email _ (by_email e) e) by done. simpl. split.
  - destruct (first_by_email (row_email r) _) as [[j s]|] eqn:Hf; [|done].
    apply first_by_email_Some in Hf as [Hs Hse].
    rewrite lookup_insert in Hs. case_decide as Hij.
    + by simplify_eq.
    + destruct Hij. by apply (Hu i j r s).
  - destruct (first_by_email_is_Some e (<[i := r']> (table w)) i r') as [[j s] Hf];
      [apply lookup_insert_eq|done|].
    rewrite Hf. apply first_by_email_Some in Hf as [Hs Hse].
    rewrite lookup_insert in Hs. case_decide as Hij.
    + injection Hs as <-. subst j. exists r'.
      split; [done|]. split; [apply lookup_insert_eq|done].
    + by destruct (Hfree j s).
Qed.

(** X25. A removed user is no longer listed: after [remove] of a stored
    user no page of [findAll] has an item with its id. *)
Theorem remove_unlists i w w' d p w'' u :
  remove i w = (Return (), w') →
  findAll d w' = (Return p, w'') →
  u ∈ items p → UserEntity.id u ≠ Some i.
Proof.
  intros Hrem [_ Hitems]%findAll_items Hin.
  destruct (Hitems u Hin) as (j & s & Hs & ->). simpl. intros [= ->].
  destruct (table w !! i) as [r|] eqn:Hr.
  - rewrite (remove_found _ _ _ Hr) in Hrem. simplify_eq. simpl in Hs.
    by rewrite lookup_delete_eq in Hs.
  - by rewrite (remove_missing _ _ Hr) in Hrem.
Qed.

End Compositions.

(** ** Instances of the further properties on the concrete worlds *)

Lemma findOne_returns_stored_user_witness :
  findOne no_row (by_email "u1@kdl.test") (seeded 2)
    = (Return (hydrate 1 user1_row), seeded 2).
Proof.
  destruct (findOne_returns_stored_user no_row (by_email "u1@kdl.test")
              "u1@kdl.test" (seeded 2) 1 user1_row)
    as (j & s & Hfound & _ & _ & _ & Hunique);
    [reflexivity|vm_compute; reflexivity|reflexivity|].
  destruct Hunique as [-> ->]; [by_evaluation|exact Hfound].
Defined.

Lemma findOne_unauthorized_iff_witness :
  findOne no_row (by_email "nobody@kdl.test") (seeded 2)
    = (Throw unauthorized, seeded 2).
Proof.
  destruct (findOne_unauthorized_iff no_row (by_email "nobody@kdl.test")
              "nobody@kdl.test" (seeded 2)) as [[Hthrows _] _]; [reflexivity|].
  apply Hthrows. by_evaluation.
Defined.

Lemma create_then_findOne_witness :
  ∃ u' h, findOne no_row (by_email (create_email alice))
            (created_world (B:=toy) alice (seeded 2))
          = (Return u', created_world (B:=toy) alice (seeded 2)) ∧
    UserEntity.id u' = UserEntity.id (created_user alice (seeded 2)) ∧
    UserEntity.password u' = Some h ∧
    h ≠ create_password alice ∧
    toy_compare (create_password alice) h = true.
Proof.
  apply (create_then_findOne (B:=toy) true no_row toy_laws alice
           (created_user alice (seeded 2)) (seeded 2)).
  vm_compute; reflexivity.
Defined.

Lemma create_then_findById_witness :
  ∃ i u', UserEntity.id (created_user alice (seeded 2)) = Some i ∧
    findById i (created_world (B:=toy) alice (seeded 2))
      = (Return u', created_world (B:=toy) alice (seeded 2)) ∧
    UserEntity.id u' = Some 3 ∧
    UserEntity.userName u' = Some "alice" ∧
    UserEntity.email u' = Some "alice@kdl.test" ∧
    UserEntity.createdAt u' = Some 1002 ∧
    UserEntity.password u' = None ∧
    UserEntity.refreshToken u' = Some None.
Proof.
  apply (create_then_findById (B:=toy) true alice (created_user alice (seeded 2))
           (seeded 2) (created_world alice (seeded 2))).
  vm_compute; reflexivity.
Defined.

Lemma create_fails_iff_witness :
  @create toy false alice (seeded 2) = (Throw feature_disabled, seeded 2) ∧
  @create toy true user1_again (seeded 2) = (Throw duplicate_email, seeded 2).
Proof.
  split.
  - apply (create_fails_iff (B:=toy) false alice (seeded 2)). split; [reflexivity|].
    left. split; reflexivity.
  - apply (create_fails_iff (B:=toy) true user1_again (seeded 2)). split; [reflexivity|].
    right. split; [reflexivity|]. split; [reflexivity|].
    exists 1, user1_row. split; [vm_compute|]; reflexivity.
Defined.

Lemma create_adds_one_row_witness :
  UserEntity.id (created_user alice (seeded 2)) = Some 3 ∧
  table (seeded 2) !! 3 = None ∧
  (∀ j, j ≠ 3 → table (created_world (B:=toy) alice (seeded 2)) !! j
                 = table (seeded 2) !! j) ∧
  size (table (created_world (B:=toy) alice (seeded 2))) = S (size (table (seeded 2))) ∧
  sequence_fresh (created_world (B:=toy) alice (seeded 2)).
Proof.
  apply (create_adds_one_row (B:=toy) true alice (created_user alice (seeded 2))
           (seeded 2) (created_world alice (seeded 2)));
    [by_evaluation|vm_compute; reflexivity].
Defined.

Lemma sequence_fresh_kept_witness :
  sequence_fresh (snd (@update toy 1 rename_patch (seeded 2))) ∧
  sequence_fresh (snd (remove 1 (seeded 2))).
Proof.
  destruct (sequence_fresh_kept (B:=toy) (seeded 2)) as (Hupdate & Hremove & _);
    [by_evaluation|].
  split; [apply Hupdate|apply Hremove].
Defined.

Lemma update_fails_iff_witness :
  @update toy 9 rename_patch (seeded 2) = (Throw (not_found 9), seeded 2) ∧
  @update toy 1 take_email_patch (seeded 2) = (Throw email_in_use, seeded 2).
Proof.
  split.
  - apply (update_fails_iff (B:=toy) 9 rename_patch (seeded 2)). split; [reflexivity|].
    left. split; [vm_compute|]; reflexivity.
  - apply (update_fails_iff (B:=toy) 1 take_email_patch (seeded 2)). split; [reflexivity|].
    right. split; [reflexivity|].
    exists user1_row, "u2@kdl.test", 2, second_row.
    split; [vm_compute; reflexivity|]. split; [reflexivity|].
    split; [discriminate|]. split; [discriminate|].
    split; [vm_compute|]; reflexivity.
Defined.

Lemma update_empty_patch_witness :
  @update toy 1 empty_patch (seeded 2)
    = (Return (delete_password (hydrate 1 user1_row)), seeded 2).
Proof.
  apply (update_empty_patch (B:=toy) 1 (seeded 2) user1_row).
  vm_compute; reflexivity.
Defined.

Lemma update_then_findById_witness :
  ∃ u w', @update toy 1 rename_patch (seeded 2) = (Return u, w') ∧
    findById 1 w' = (Return u, w').
Proof.
  eexists _, _. split; [vm_compute; reflexivity|].
  apply (update_then_findById (B:=toy) 1 rename_patch _ (seeded 2)).
  vm_compute; reflexivity.
Defined.

Lemma update_twice_witness :
  ∃ u w', @update toy 1 rename_patch (seeded 2) = (Return u, w') ∧
    @update toy 1 rename_patch w' = (Return u, w').
Proof.
  eexists _, _. split; [vm_compute; reflexivity|].
  apply (update_twice (B:=toy) 1 rename_patch _ (seeded 2)); [reflexivity|].
  vm_compute; reflexivity.
Defined.

Lemma remove_frees_email_witness :
  ∃ w1 u w2, remove 1 (seeded 2) = (Return (), w1) ∧
    @create toy true user1_again w1 = (Return u, w2) ∧
    UserEntity.email u = Some "u1@kdl.test".
Proof.
  apply (remove_frees_email (B:=toy) true 1 (seeded 2) user1_row user1_again);
    [reflexivity|by_evaluation|vm_compute; reflexivity|reflexivity].
Defined.

Lemma remove_exactly_that_row_witness :
  ∃ w', remove 1 (seeded 2) = (Return (), w') ∧
    table w' !! 1 = None ∧
    (∀ j, j ≠ 1 → table w' !! j = table (seeded 2) !! j) ∧
    S (size (table w')) = size (table (seeded 2)) ∧
    sequence w' = sequence (seeded 2) ∧
    remove 1 w' = (Throw (not_found 1), w').
Proof.
  apply (remove_exactly_that_row 1 (seeded 2) user1_row). vm_compute; reflexivity.
Defined.

Lemma unique_emails_kept_witness :
  unique_emails (table (snd (remove 1 (seeded 2)))) ∧
  unique_emails (table (snd (@updateRefreshToken toy 1 "refresh.jwt" (seeded 2)))) ∧
  unique_emails (table (snd (removeRefreshToken 1 token_world))).
Proof.
  destruct (unique_emails_kept (B:=toy) (seeded 2)) as (Hremove & Hissue & _);
    [by_evaluation|].
  destruct (unique_emails_kept (B:=toy) token_world) as (_ & _ & Hclear);
    [by_evaluation|].
  split; [apply Hremove|]. split; [apply Hissue|apply Hclear].
Defined.

Lemma refreshToken_latest_verifies_witness :
  ∃ w1 w2 h1 h2,
    @updateRefreshToken toy 1 "refresh.jwt" (seeded 2) = (Return (), w1) ∧
    row_refreshToken <$> table w1 !! 1 = Some (Some h1) ∧
    h1 = toy_hash "refresh.jwt" (toy_salt 10 2) ∧
    toy_compare "refresh.jwt" h1 = true ∧
    @updateRefreshToken toy 1 "second.jwt" w1 = (Return (), w2) ∧
    row_refreshToken <$> table w2 !! 1 = Some (Some h2) ∧
    h2 = toy_hash "second.jwt" (toy_salt 10 3) ∧
    toy_compare "second.jwt" h2 = true.
Proof.
  apply (refreshToken_latest_verifies (B:=toy) toy_laws 1 "refresh.jwt" "second.jwt"
           (seeded 2) user1_row).
  vm_compute; reflexivity.
Defined.

Lemma removeRefreshToken_twice_witness :
  removeRefreshToken 1 (snd (removeRefreshToken 1 token_world))
    = (Return (), snd (removeRefreshToken 1 token_world)) ∧
  removeRefreshToken 1 (seeded 2) = (Return (), seeded 2).
Proof.
  split.
  - apply (removeRefreshToken_twice 1 token_world).
  - apply (removeRefreshToken_twice 1 (seeded 2)). intros h. vm_compute. discriminate.
Defined.

Lemma findAll_valid_dto_witness :
  ∃ p, findAll second_page (seeded 15) = (Return p, seeded 15) ∧
    page_number p = 2 ∧ pageSize p = 10 ∧ total p = 15 ∧
    Z.of_nat (length (items p)) = 5.
Proof.
  destruct (findAll_valid_dto second_page (seeded 15)) as (p & Hp & Hn & Hs & Ht & Hl);
    [reflexivity|by vm_compute|].
  exists p. split; [exact Hp|]. split; [exact Hn|]. split; [exact Hs|].
  assert (total p = 15) as Htotal by (rewrite Ht; vm_compute; reflexivity).
  split; [exact Htotal|]. rewrite Hl, Htotal, Hn. reflexivity.
Defined.

Lemma findAll_newest_first_witness :
  ∃ u v ca cb,
    page_items (seeded 15) 2 !! 0%nat = Some u ∧
    page_items (seeded 15) 2 !! 1%nat = Some v ∧
    UserEntity.createdAt u = Some ca ∧ UserEntity.createdAt v = Some cb ∧ cb ≤ ca.
Proof.
  edestruct findAll_newest_first
    with (d := second_page) (w := seeded 15) (a := 0%nat) (b := 1%nat)
    as (ca & cb & Hu & Hv & Hle);
    [vm_compute; reflexivity|lia|vm_compute; reflexivity|vm_compute; reflexivity|].
  eexists _, _, ca, cb.
  split; [vm_compute; reflexivity|]. split; [vm_compute; reflexivity|].
  split; [exact Hu|]. split; [exact Hv|exact Hle].
Defined.

Lemma findAll_past_last_page_witness :
  ∃ p, findAll third_page (seeded 15) = (Return p, seeded 15) ∧ items p = [].
Proof.
  eexists. split; [vm_compute; reflexivity|].
  apply (findAll_past_last_page third_page (seeded 15) _ (seeded 15));
    vm_compute; reflexivity.
Defined.

Lemma findAll_totalPages_least_witness :
  ∃ p, findAll second_page (seeded 15) = (Return p, seeded 15) ∧
    10 * (totalPages p - 1) < total p ≤ 10 * totalPages p.
Proof.
  eexists. split; [vm_compute; reflexivity|].
  apply (findAll_totalPages_least second_page (seeded 15) _ (seeded 15)).
  vm_compute; reflexivity.
Defined.

Lemma findAll_no_user_twice_witness :
  ∃ p, findAll second_page (seeded 15) = (Return p, seeded 15) ∧
    NoDup (UserEntity.id <$> items p).
Proof.
  eexists. split; [vm_compute; reflexivity|].
  apply (findAll_no_user_twice second_page (seeded 15) _ (seeded 15)).
  vm_compute; reflexivity.
Defined.

Lemma update_email_moves_login_witness :
  ∃ u w', @update toy 1 rename_patch (seeded 2) = (Return u, w') ∧
    findOne no_row (by_email "u1@kdl.test") w' = (Throw unauthorized, w') ∧
    ∃ s, findOne no_row (by_email "first@kdl.test") w' = (Return (hydrate 1 s), w') ∧
      table w' !! 1 = Some s ∧ row_email s = "first@kdl.test".
Proof.
  eexists _, _. split; [vm_compute; reflexivity|].
  eapply (update_email_moves_login (B:=toy))
    with (i := 1) (patch := rename_patch) (w := seeded 2) (r := user1_row);
    [by_evaluation|vm_compute; reflexivity|reflexivity|discriminate|discriminate|].
  vm_compute; reflexivity.
Defined.

Lemma remove_unlists_witness :
  ∃ w' p, remove 1 (seeded 2) = (Return (), w') ∧
    findAll PaginationDto_new w' = (Return p, w') ∧
    ∀ u, u ∈ items p → UserEntity.id u ≠ Some 1.
Proof.
  eexists _, _. split; [vm_compute; reflexivity|]. split; [vm_compute; reflexivity|].
  intros u. eapply remove_unlists with (i := 1) (w := seeded 2) (d := PaginationDto_new);
    vm_compute; reflexivity.
Defined.
